(** * lazorkit-starter: session persistence and subscription ledger

    A shallow embedding of the two local data helpers of the application,
    [src/lib/subscription.ts] and [src/hooks/use-session.ts], and of the host
    facilities they call: the ECMAScript [Date] arithmetic, [localStorage]
    and [JSON]; and of what is built on them: the effects of the session
    hook, the hook [src/hooks/use-subscription.ts], and what the pages
    compute from their lists.

    Conventions.
    - A JavaScript time value is an integer number of milliseconds since the
      epoch, a [Z].  The clock reading [Date.now()] and the random suffix
      drawn from [Math.random()] are explicit arguments of the functions
      that read them.
    - [Date] arithmetic follows the abstract operations of ECMA-262
      (sec. 21.4.1).  The zone of the host is its [LocalTZA(t, isUTC)], the
      offset of local time from UTC at a time value or at a local time: an
      argument [zone] of every function that reads or writes calendar
      fields.  The offset may change from one date to another (daylight
      saving); [fixedOffset] is a zone in which it does not.
    - A time value is a [Z], and a number that holds one is never [NaN]:
      the clock and the dates computed from it stay within the range of
      [Date].  [TimeClip], which turns a time value beyond 8.64e15 ms (year
      275760) into [NaN], is defined, and the statement about
      [calculateNextBillingDate] has the range as its condition.
    - [window] is [option Storage]: [None] on the server, where
      [typeof window === 'undefined'].  [localStorage] is a finite map from
      keys to strings, and writing to it always succeeds (no quota).
    - [JSON.parse] and [JSON.stringify] are the interface [JSON], at the
      type that the TypeScript annotation gives to the parsed value.  The
      functions of the application are stated over any host that meets the
      interface; [Module Json] and [Module Codec] give one, a printer and a
      parser of JSON texts.
    - A number that is not a time value (the amount of a plan) is kept as
      its decimal numeral.
    - An asynchronous function is the state it leaves once its promise has
      settled; how an awaited call of the wallet settles ([connect()], the
      signing of a payment) is an argument of the function that awaits
      it. *)

From Stdlib Require Import ZArith Lia Bool List String Ascii.
From Stdlib Require Import QArith.QArith_base QArith.Qround.
From Stdlib Require Import DecimalString DecimalN DecimalZ DecimalFacts.
From stdpp Require Import base option list strings gmap.

Local Open Scope Z_scope.

(* ================================================================== *)
(** * ECMAScript time values and calendar fields (ECMA-262, 21.4.1)   *)
(* ================================================================== *)

Module ESDate.

Definition msPerDay : Z := 86400000.

Definition Day (t : Z) : Z := t / msPerDay.
Definition TimeWithinDay (t : Z) : Z := t mod msPerDay.

Definition DaysInYear (y : Z) : Z :=
  if negb (y mod 4 =? 0) then 365
  else if negb (y mod 100 =? 0) then 366
  else if negb (y mod 400 =? 0) then 365
  else 366.

Definition DayFromYear (y : Z) : Z :=
  365 * (y - 1970) + (y - 1969) / 4 - (y - 1901) / 100 + (y - 1601) / 400.

Definition TimeFromYear (y : Z) : Z := msPerDay * DayFromYear y.

(** ECMA-262 defines [YearFromTime t] as the largest [y] with
    [TimeFromYear y <= t].  The mean Gregorian year has 146097/400 days, so
    the quotient below is at most one year away from it; the two tests move
    it into place ([YearFromTime_spec], [YearFromTime_unique]). *)
Definition YearFromTime (t : Z) : Z :=
  let d := Day t in
  let y := 1970 + (400 * d) / 146097 in
  if DayFromYear (y + 1) <=? d then y + 1
  else if DayFromYear y <=? d then y
  else y - 1.

Definition InLeapYear (t : Z) : Z :=
  if DaysInYear (YearFromTime t) =? 366 then 1 else 0.

Definition DayWithinYear (t : Z) : Z := Day t - DayFromYear (YearFromTime t).

(** Day number, within a year, of the first day of month [m] (0 = January);
    [leap] is 1 in a leap year and 0 otherwise.  Entry 12 is the length of
    the year. *)
Definition monthStart (leap m : Z) : Z :=
  match m with
  | 0 => 0
  | 1 => 31
  | 2 => 59 + leap
  | 3 => 90 + leap
  | 4 => 120 + leap
  | 5 => 151 + leap
  | 6 => 181 + leap
  | 7 => 212 + leap
  | 8 => 243 + leap
  | 9 => 273 + leap
  | 10 => 304 + leap
  | 11 => 334 + leap
  | _ => 365 + leap
  end.

Definition monthOfDay (leap dwy : Z) : Z :=
  if dwy <? 31 then 0
  else if dwy <? 59 + leap then 1
  else if dwy <? 90 + leap then 2
  else if dwy <? 120 + leap then 3
  else if dwy <? 151 + leap then 4
  else if dwy <? 181 + leap then 5
  else if dwy <? 212 + leap then 6
  else if dwy <? 243 + leap then 7
  else if dwy <? 273 + leap then 8
  else if dwy <? 304 + leap then 9
  else if dwy <? 334 + leap then 10
  else 11.

Definition MonthFromTime (t : Z) : Z :=
  monthOfDay (InLeapYear t) (DayWithinYear t).

Definition DateFromTime (t : Z) : Z :=
  DayWithinYear t - monthStart (InLeapYear t) (MonthFromTime t) + 1.

Definition leapOfYear (y : Z) : Z := if DaysInYear y =? 366 then 1 else 0.

(** [MakeDay year month date]: the day number of the first of month
    [month mod 12] in year [year + month / 12], moved by [date - 1] days. *)
Definition MakeDay (year month date : Z) : Z :=
  let ym := year + month / 12 in
  let mn := month mod 12 in
  DayFromYear ym + monthStart (leapOfYear ym) mn + date - 1.

Definition MakeDate (day time : Z) : Z := day * msPerDay + time.

(** Number of days of month [m] (0..11) in year [y]. *)
Definition DaysInMonth (y m : Z) : Z :=
  monthStart (leapOfYear y) (m + 1) - monthStart (leapOfYear y) m.

(** The zone of the host, [LocalTZA(t, isUTC)] of ECMA-262: the offset of
    local time from UTC, in milliseconds.  With [isUTC] true, [t] is a time
    value and the result is the offset in force at that instant.  With
    [isUTC] false, [t] is a local time value and the result is the offset in
    force at the instant that this local time denotes; for a local time that
    a change of offset skips or repeats, the offset before the change. *)
Definition Zone : Type := Z -> bool -> Z.

(** A zone whose offset never changes. *)
Definition fixedOffset (tza : Z) : Zone := fun _ _ => tza.

(** No two offsets of the zone differ by [span] or more. *)
Definition offsets_within (zone : Zone) (span : Z) : Prop :=
  forall t t' isUTC isUTC', Z.abs (zone t isUTC - zone t' isUTC') < span.

Section LocalZone.
Variable LocalTZA : Zone.

Definition LocalTime (t : Z) : Z := t + LocalTZA t true.
Definition UTC (t : Z) : Z := t - LocalTZA t false.

Definition getFullYear (tv : Z) : Z := YearFromTime (LocalTime tv).
Definition getMonth (tv : Z) : Z := MonthFromTime (LocalTime tv).
Definition getDate (tv : Z) : Z := DateFromTime (LocalTime tv).

(** Year, month (0 = January) and day of the month, in local time. *)
Definition fields (tv : Z) : Z * Z * Z :=
  (getFullYear tv, getMonth tv, getDate tv).

(** [Date.prototype.setDate(date)] *)
Definition setDate (tv date : Z) : Z :=
  let t := LocalTime tv in
  UTC (MakeDate (MakeDay (YearFromTime t) (MonthFromTime t) date)
                (TimeWithinDay t)).

(** [Date.prototype.setMonth(month)] *)
Definition setMonth (tv month : Z) : Z :=
  let t := LocalTime tv in
  UTC (MakeDate (MakeDay (YearFromTime t) month (DateFromTime t))
                (TimeWithinDay t)).

(** [Date.prototype.setFullYear(year)] *)
Definition setFullYear (tv year : Z) : Z :=
  let t := LocalTime tv in
  UTC (MakeDate (MakeDay year (MonthFromTime t) (DateFromTime t))
                (TimeWithinDay t)).
End LocalZone.

(** Number of days from day [d] of month [m] of year [y] to day [d] of
    month [m] of year [y + 1]. *)
Definition yearStep (y m : Z) : Z :=
  DaysInYear y + monthStart (leapOfYear (y + 1)) m - monthStart (leapOfYear y) m.

(** The month after month [m] of year [y]. *)
Definition nextMonth (y m : Z) : Z * Z :=
  if m =? 11 then (y + 1, 0) else (y, m + 1).

(** [TimeClip]: a time value beyond the range of [Date] becomes [NaN],
    here [None].  The setters above give the time value before it is
    clipped: they are the setters of [Date] for the dates that stay within
    the range, which is what the statements about them require.
    [calculateNextBillingDate_TimeClip] below shows that clipping changes
    nothing for a date that is more than a year inside the range. *)
Definition maxTime : Z := 8640000000000000.
Definition TimeClip (t : Z) : option Z :=
  if Z.abs t <=? maxTime then Some t else None.

(** Time value of a calendar date at midnight UTC, for examples. *)
Definition utcMidnight (y m d : Z) : Z := MakeDate (MakeDay y m d) 0.

(** Year, month and day of the month that a local time value shows. *)
Definition localFields (t : Z) : Z * Z * Z :=
  (YearFromTime t, MonthFromTime t, DateFromTime t).

End ESDate.

(* ================================================================== *)
(** * Host: [window.localStorage] and [JSON]                           *)
(* ================================================================== *)

(** [localStorage]: a finite map from keys to string values. *)
Abbreviation Storage := (gmap string string).

(** The global [window]; [None] where [typeof window === 'undefined']. *)
Abbreviation Window := (option (gmap string string)).

Definition getItem (ls : Storage) (key : string) : option string := ls !! key.
Definition setItem (ls : Storage) (key value : string) : Storage := <[key := value]> ls.
Definition removeItem (ls : Storage) (key : string) : Storage := delete key ls.

(** JavaScript truthiness of a value read with [getItem]: [null] and the
    empty string are falsy. *)
Definition truthy (saved : option string) : bool :=
  match saved with
  | None => false
  | Some s => negb (String.eqb s EmptyString)
  end.

(** [JSON.stringify] and [JSON.parse] at the type [T] that the TypeScript
    annotation gives to the parsed value.  [JSON_parse] is [None] where
    [JSON.parse] throws.  The two laws are those of ECMA-262: the text
    produced for a value parses back to it, and the empty text is not JSON. *)
Class JSON (T : Type) := {
  JSON_stringify : T -> string;
  JSON_parse : string -> option T;
  JSON_parse_stringify : forall v, JSON_parse (JSON_stringify v) = Some v;
  JSON_parse_empty : JSON_parse EmptyString = None
}.

(** A JavaScript number that is not a time value is kept as the decimal
    numeral that denotes it: sign, integral part and the digits after the
    point ([Decimal.Nil] when there is none).  4.99 is
    [{| negative := false; integral := 4; fraction := D9 (D9 Nil) |}]. *)
Record number := {
  negative : bool;
  integral : N;
  fraction : Decimal.uint
}.

(** Decimal text of an integer, as in a template literal. *)
Definition Z_to_string (z : Z) : string := NilZero.string_of_int (Z.to_int z).

(* ================================================================== *)
(** * src/lib/subscription.ts                                          *)
(* ================================================================== *)

Module SubscriptionLib.

Definition SUBSCRIPTIONS_KEY : string := "lazorkit-subscriptions".

Inductive BillingCycle := weekly | monthly | yearly.

Inductive Status := active | cancelled | expired.

Record Subscription := {
  id : string;
  planId : string;
  walletAddress : string;
  merchantAddress : string;
  amount : number;
  billingCycle : BillingCycle;
  startDate : Z;
  nextBillingDate : Z;
  status : Status;
  lastPaymentTx : option string
}.

#[export] Instance BillingCycle_eq_dec : EqDecision BillingCycle.
Proof. solve_decision. Defined.

#[export] Instance Status_eq_dec : EqDecision Status.
Proof. solve_decision. Defined.

(** [subscriptions[index].status = value] *)
Definition set_status (value : Status) (sub : Subscription) : Subscription :=
  {| id := id sub; planId := planId sub; walletAddress := walletAddress sub;
     merchantAddress := merchantAddress sub; amount := amount sub;
     billingCycle := billingCycle sub; startDate := startDate sub;
     nextBillingDate := nextBillingDate sub; status := value;
     lastPaymentTx := lastPaymentTx sub |}.

(** [subscription.lastPaymentTx = tx; subscription.nextBillingDate = next] *)
Definition set_payment (tx : string) (next : Z) (sub : Subscription) : Subscription :=
  {| id := id sub; planId := planId sub; walletAddress := walletAddress sub;
     merchantAddress := merchantAddress sub; amount := amount sub;
     billingCycle := billingCycle sub; startDate := startDate sub;
     nextBillingDate := next; status := status sub;
     lastPaymentTx := Some tx |}.

(** [Array.prototype.findIndex]; [None] stands for -1. *)
Definition findIndex {A} (P : A -> Prop) `{forall x, Decision (P x)}
    (l : list A) : option nat :=
  fst <$> list_find P l.

Section Billing.
(** The zone of the host and its [JSON] at the type of the ledger. *)
Variable zone : ESDate.Zone.
Context `{JSON (list Subscription)}.

(** [fromDate] is the time value of the date; the result is the time value
    that the setter computes, which is what [getTime] returns as long as it
    is within the range of [Date] ([ESDate.TimeClip]). *)
Definition calculateNextBillingDate (fromDate : Z) (cycle : BillingCycle) : Z :=
  let next := fromDate in
  match cycle with
  | weekly => ESDate.setDate zone next (ESDate.getDate zone next + 7)
  | monthly => ESDate.setMonth zone next (ESDate.getMonth zone next + 1)
  | yearly => ESDate.setFullYear zone next (ESDate.getFullYear zone next + 1)
  end.

Definition getCycleDuration (cycle : BillingCycle) : Z :=
  match cycle with
  | weekly => 7 * 24 * 60 * 60 * 1000
  | monthly => 30 * 24 * 60 * 60 * 1000
  | yearly => 365 * 24 * 60 * 60 * 1000
  end.

Definition loadSubscriptions (window : Window) : list Subscription :=
  match window with
  | None => []
  | Some localStorage =>
      let stored := getItem localStorage SUBSCRIPTIONS_KEY in
      match stored with
      | Some text =>
          if truthy stored then
            match JSON_parse text with
            | Some subscriptions => subscriptions
            | None => []        (* catch *)
            end
          else []
      | None => []
      end
  end.

Definition saveSubscriptions (subscriptions : list Subscription)
    (window : Window) : Window :=
  match window with
  | None => None
  | Some localStorage =>
      Some (setItem localStorage SUBSCRIPTIONS_KEY (JSON_stringify subscriptions))
  end.

Definition getWalletSubscriptions (window : Window) (address : string)
    : list Subscription :=
  let all := loadSubscriptions window in
  filter (fun sub => walletAddress sub = address) all.

Definition getSubscription (window : Window) (subscriptionId : string)
    : option Subscription :=
  let all := loadSubscriptions window in
  snd <$> list_find (fun sub => id sub = subscriptionId) all.

(** [now] is the reading of [Date.now()], [rnd] the text
    [Math.random().toString(36).slice(2, 9)]. *)
Definition createSubscription (now : Z) (rnd : string)
    (planId' walletAddress' merchantAddress' : string) (amount' : number)
    (billingCycle' : BillingCycle) (paymentTx : option string)
    (window : Window) : Subscription * Window :=
  let subscription :=
    {| id := "sub_" +:+ Z_to_string now +:+ "_" +:+ rnd;
       planId := planId';
       walletAddress := walletAddress';
       merchantAddress := merchantAddress';
       amount := amount';
       billingCycle := billingCycle';
       startDate := now;
       nextBillingDate := calculateNextBillingDate now billingCycle';
       status := active;
       lastPaymentTx := paymentTx |} in
  let subscriptions := loadSubscriptions window in
  let subscriptions := subscriptions ++ [subscription] in
  (subscription, saveSubscriptions subscriptions window).

Definition cancelSubscription (subscriptionId : string) (window : Window)
    : bool * Window :=
  let subscriptions := loadSubscriptions window in
  match findIndex (fun sub => id sub = subscriptionId) subscriptions with
  | None => (false, window)
  | Some index =>
      let subscriptions := alter (set_status cancelled) index subscriptions in
      (true, saveSubscriptions subscriptions window)
  end.

(** [now] is the time of [new Date()]. *)
Definition recordPayment (now : Z) (subscriptionId paymentTx : string)
    (window : Window) : option Subscription * Window :=
  let subscriptions := loadSubscriptions window in
  match findIndex (fun sub => id sub = subscriptionId) subscriptions with
  | None => (None, window)
  | Some index =>
      match subscriptions !! index with
      | None => (None, window)    (* not reached: [index] is in range *)
      | Some subscription =>
          let subscription :=
            set_payment paymentTx
              (calculateNextBillingDate now (billingCycle subscription))
              subscription in
          let subscriptions := <[index := subscription]> subscriptions in
          (Some subscription, saveSubscriptions subscriptions window)
      end
  end.

Definition clearAllSubscriptions (window : Window) : Window :=
  match window with
  | None => None
  | Some localStorage => Some (removeItem localStorage SUBSCRIPTIONS_KEY)
  end.
End Billing.

(** [now] is the reading of [Date.now()]. *)
Definition isPaymentDue (now : Z) (subscription : Subscription) : bool :=
  if negb (bool_decide (status subscription = active)) then false
  else now >=? nextBillingDate subscription.

(** [Math.ceil] of the quotient of two integers.  The quotient is the
    exact one; the ceiling of the double that JavaScript computes is the
    same for every difference of time values that is itself within the range
    of [Date]. *)
Definition Math_ceil_div (a b : Z) : Z :=
  Qceiling (Qdiv (inject_Z a) (inject_Z b)).

Definition getDaysUntilBilling (now : Z) (subscription : Subscription) : Z :=
  let diff := nextBillingDate subscription - now in
  Z.max 0 (Math_ceil_div diff (24 * 60 * 60 * 1000)).

(** ** Histories of the ledger *)

(** A call of one of the three functions that write the ledger, with the
    readings of the clock and of the random source that it consumes. *)
Inductive Op :=
  | Create (now : Z) (rnd planId' walletAddress' merchantAddress' : string)
      (amount' : number) (billingCycle' : BillingCycle)
      (paymentTx : option string)
  | Cancel (subscriptionId : string)
  | RecordPayment (now : Z) (subscriptionId paymentTx : string).

Section History.
Variable zone : ESDate.Zone.
Context `{JSON (list Subscription)}.

Definition step (window : Window) (op : Op) : Window :=
  match op with
  | Create now rnd p w m a c tx =>
      snd (createSubscription zone now rnd p w m a c tx window)
  | Cancel subscriptionId => snd (cancelSubscription subscriptionId window)
  | RecordPayment now subscriptionId tx =>
      snd (recordPayment zone now subscriptionId tx window)
  end.

Definition run (ops : list Op) (window : Window) : Window :=
  fold_left step ops window.

(** Status of the record at position [i] of the stored ledger. *)
Definition status_at (window : Window) (i : nat) : option Status :=
  status <$> loadSubscriptions window !! i.
End History.

(** ** The specification's wording, for comparison with the code *)

(** "[status] transitions only active -> cancelled or active -> expired,
    never reverse": what a history may do to the status of a record. *)
Definition transition_as_specified (s s' : Status) : Prop :=
  s' = s \/ (s = active /\ (s' = cancelled \/ s' = expired)).

(** The history [ops], run from [window], moves the status of every record
    as specified. *)
Definition status_claim_as_specified `{JSON (list Subscription)} (zone : ESDate.Zone)
    (window : Window) (ops : list Op) : Prop :=
  forall i s s',
    status_at window i = Some s ->
    status_at (run zone ops window) i = Some s' ->
    transition_as_specified s s'.

(** "monthly = +1 calendar month (same day-of-month, clamped ...)": the
    day [r] is in the month after that of [d], on the same day of the month
    or on the last day of that month if it is shorter. *)
Definition one_month_later_clamped (zone : ESDate.Zone) (d r : Z) : Prop :=
  let '(y, m, day) := ESDate.fields zone d in
  let '(y', m') := ESDate.nextMonth y m in
  ESDate.fields zone r = (y', m', Z.min day (ESDate.DaysInMonth y' m')).

(** "[daysUntilDue(record)]: [max(0, ceil((nextBillingDate - now)/dayMs))]",
    with [ceiling a b] the least integer [n] such that [a <= n * b]. *)
Definition dayMs : Z := 86400000.
Definition ceiling (a b : Z) : Z := - ((- a) / b).
Definition daysUntilDue (now : Z) (record : Subscription) : Z :=
  Z.max 0 (ceiling (nextBillingDate record - now) dayMs).

End SubscriptionLib.

(* ================================================================== *)
(** * src/hooks/use-session.ts                                         *)
(* ================================================================== *)

Module UseSession.

Definition SESSION_KEY : string := "lazorkit-session".
Definition DEFAULT_EXPIRY_MS : Z := 24 * 60 * 60 * 1000.

Record SessionData := {
  connected : bool;
  timestamp : Z;
  walletAddress : option string
}.

(** What the hook reads and writes: the browser's [window] and its own
    [sessionInfo] state. *)
Record Hook := {
  window : Window;
  sessionInfo : option SessionData
}.

Section Session.
Context `{JSON SessionData}.

(** [now] is the reading of [Date.now()]; [smartWalletPubkey] is the
    base-58 text of the key, [None] while the wallet has none. *)
Definition saveSession (now : Z) (smartWalletPubkey : option string)
    (h : Hook) : Hook :=
  match window h with
  | None => h
  | Some localStorage =>
      let session :=
        {| connected := true;
           timestamp := now;
           walletAddress := smartWalletPubkey |} in
      {| window := Some (setItem localStorage SESSION_KEY (JSON_stringify session));
         sessionInfo := Some session |}
  end.

Definition loadSession (h : Hook) : option SessionData :=
  match window h with
  | None => None
  | Some localStorage =>
      let saved := getItem localStorage SESSION_KEY in
      match saved with
      | Some text =>
          if negb (truthy saved) then None
          else
            match JSON_parse text with
            | Some session => Some session
            | None => None      (* catch *)
            end
      | None => None
      end
  end.

Definition clearSession (h : Hook) : Hook :=
  match window h with
  | None => h
  | Some localStorage =>
      {| window := Some (removeItem localStorage SESSION_KEY);
         sessionInfo := None |}
  end.
End Session.

(** [now] is the reading of [Date.now()]. *)
Definition isValidSession (expiryMs now : Z) (session : option SessionData) : bool :=
  match session with
  | None => false
  | Some session =>
      if negb (connected session) then false
      else
        let age := now - timestamp session in
        age <? expiryMs
  end.

End UseSession.

(* ================================================================== *)
(** * A JSON printer and parser                                        *)
(* ================================================================== *)

(** The part of JSON that the application stores: every value that
    [print] produces, read back by a parser that also accepts insignificant
    white space and the standard escapes.  Texts are lists of characters;
    a character is one byte, so [\uXXXX] is read for code points below 256,
    and numbers carry no exponent part. *)
Module Json.

Local Open Scope char_scope.
Local Open Scope list_scope.

Unset Elimination Schemes.
Inductive value :=
  | Null
  | Bool (b : bool)
  | Num (n : number)
  | Str (s : string)
  | Arr (elements : list value)
  | Obj (members : list (string * value)).
Set Elimination Schemes.

(** ** Numbers *)

Fixpoint uint_chars (u : Decimal.uint) : list ascii :=
  match u with
  | Decimal.Nil => []
  | Decimal.D0 u => "0" :: uint_chars u
  | Decimal.D1 u => "1" :: uint_chars u
  | Decimal.D2 u => "2" :: uint_chars u
  | Decimal.D3 u => "3" :: uint_chars u
  | Decimal.D4 u => "4" :: uint_chars u
  | Decimal.D5 u => "5" :: uint_chars u
  | Decimal.D6 u => "6" :: uint_chars u
  | Decimal.D7 u => "7" :: uint_chars u
  | Decimal.D8 u => "8" :: uint_chars u
  | Decimal.D9 u => "9" :: uint_chars u
  end.

Definition digit_of (c : ascii) : option (Decimal.uint -> Decimal.uint) :=
  if Ascii.eqb c "0" then Some Decimal.D0
  else if Ascii.eqb c "1" then Some Decimal.D1
  else if Ascii.eqb c "2" then Some Decimal.D2
  else if Ascii.eqb c "3" then Some Decimal.D3
  else if Ascii.eqb c "4" then Some Decimal.D4
  else if Ascii.eqb c "5" then Some Decimal.D5
  else if Ascii.eqb c "6" then Some Decimal.D6
  else if Ascii.eqb c "7" then Some Decimal.D7
  else if Ascii.eqb c "8" then Some Decimal.D8
  else if Ascii.eqb c "9" then Some Decimal.D9
  else None.

(** The longest run of digits at the head of the text. *)
Fixpoint read_digits (s : list ascii) : Decimal.uint * list ascii :=
  match s with
  | [] => (Decimal.Nil, [])
  | c :: r =>
      match digit_of c with
      | Some d => let (u, r') := read_digits r in (d u, r')
      | None => (Decimal.Nil, s)
      end
  end.

Definition is_nil (u : Decimal.uint) : bool :=
  match u with Decimal.Nil => true | _ => false end.

Definition print_number (n : number) : list ascii :=
  (if negative n then ["-"] else [])
  ++ uint_chars (N.to_uint (integral n))
  ++ (if is_nil (fraction n) then [] else "." :: uint_chars (fraction n)).

Definition starts_exponent (s : list ascii) : bool :=
  match s with
  | c :: _ => Ascii.eqb c "e" || Ascii.eqb c "E"
  | [] => false
  end.

(** [-? int frac?]; an integral part with a leading zero is refused, as
    is a point without digits after it. *)
Definition parse_number (s : list ascii) : option (number * list ascii) :=
  let (neg, s1) :=
    match s with
    | c :: r => if Ascii.eqb c "-" then (true, r) else (false, s)
    | [] => (false, s)
    end in
  let (ip, s2) := read_digits s1 in
  if is_nil ip then None
  else if negb (Decimal.uint_beq (Decimal.unorm ip) ip) then None
  else
    match s2 with
    | c :: r =>
        if Ascii.eqb c "." then
          let (fp, s3) := read_digits r in
          if is_nil fp || starts_exponent s3 then None
          else Some ({| negative := neg; integral := N.of_uint ip; fraction := fp |}, s3)
        else if starts_exponent s2 then None
        else Some ({| negative := neg; integral := N.of_uint ip;
                      fraction := Decimal.Nil |}, s2)
    | [] => Some ({| negative := neg; integral := N.of_uint ip;
                     fraction := Decimal.Nil |}, [])
    end.

(** ** Strings *)

(** The double quote. *)
Definition quote : ascii := ascii_of_N 34.

Definition hex_char (n : N) : ascii :=
  if (n <? 10)%N then ascii_of_N (48 + n) else ascii_of_N (87 + n).

Definition hex_val (c : ascii) : option N :=
  let n := N_of_ascii c in
  if (48 <=? n)%N && (n <=? 57)%N then Some (n - 48)%N
  else if (97 <=? n)%N && (n <=? 102)%N then Some (n - 87)%N
  else if (65 <=? n)%N && (n <=? 70)%N then Some (n - 55)%N
  else None.

(** [QuoteJSONString]: the quote and the backslash are escaped, control
    characters are written with their short escape or as [\u00xx]. *)
Definition escape_char (c : ascii) : list ascii :=
  let n := N_of_ascii c in
  if Ascii.eqb c quote then ["\"; quote]
  else if Ascii.eqb c "\" then ["\"; "\"]
  else if (n =? 8)%N then ["\"; "b"]
  else if (n =? 9)%N then ["\"; "t"]
  else if (n =? 10)%N then ["\"; "n"]
  else if (n =? 12)%N then ["\"; "f"]
  else if (n =? 13)%N then ["\"; "r"]
  else if (n <? 32)%N then
    ["\"; "u"; "0"; "0"; hex_char (n / 16); hex_char (n mod 16)]
  else [c].

Fixpoint escape (s : string) : list ascii :=
  match s with
  | EmptyString => []
  | String c s => escape_char c ++ escape s
  end.

Definition print_string (s : string) : list ascii :=
  quote :: escape s ++ [quote].

Definition unescape (e : ascii) : option ascii :=
  if Ascii.eqb e quote then Some quote
  else if Ascii.eqb e "\" then Some "\"
  else if Ascii.eqb e "/" then Some "/"
  else if Ascii.eqb e "b" then Some (ascii_of_N 8)
  else if Ascii.eqb e "t" then Some (ascii_of_N 9)
  else if Ascii.eqb e "n" then Some (ascii_of_N 10)
  else if Ascii.eqb e "f" then Some (ascii_of_N 12)
  else if Ascii.eqb e "r" then Some (ascii_of_N 13)
  else None.

Definition hex4 (a b c d : ascii) : option ascii :=
  match hex_val a, hex_val b, hex_val c, hex_val d with
  | Some x, Some y, Some z, Some w =>
      if (x =? 0)%N && (y =? 0)%N then Some (ascii_of_N (16 * z + w)) else None
  | _, _, _, _ => None
  end.

Definition cons_char (c : ascii) (p : option (string * list ascii))
    : option (string * list ascii) :=
  match p with
  | Some (s, r) => Some (String c s, r)
  | None => None
  end.

(** The characters of a string literal after its opening quote, up to and
    including the closing quote. *)
Fixpoint parse_chars (s : list ascii) : option (string * list ascii) :=
  match s with
  | [] => None
  | c :: r =>
      if Ascii.eqb c quote then Some (EmptyString, r)
      else if Ascii.eqb c "\" then
        match r with
        | [] => None
        | e :: r1 =>
            if Ascii.eqb e "u" then
              match r1 with
              | a :: b :: c' :: d :: r2 =>
                  match hex4 a b c' d with
                  | Some x => cons_char x (parse_chars r2)
                  | None => None
                  end
              | _ => None
              end
            else
              match unescape e with
              | Some x => cons_char x (parse_chars r1)
              | None => None
              end
        end
      else if (N_of_ascii c <? 32)%N then None
      else cons_char c (parse_chars r)
  end.

(** ** Values *)

(** The items of an array or an object after the opening bracket:
    separated by commas and closed by [close]. *)
Definition print_seq {A} (item : A -> list ascii) (close : ascii)
    : list A -> list ascii :=
  fix go (l : list A) : list ascii :=
    match l with
    | [] => [close]
    | x :: l' =>
        item x ++
        match l' with
        | [] => [close]
        | _ :: _ => "," :: go l'
        end
    end.

Fixpoint print (v : value) : list ascii :=
  match v with
  | Null => ["n"; "u"; "l"; "l"]
  | Bool true => ["t"; "r"; "u"; "e"]
  | Bool false => ["f"; "a"; "l"; "s"; "e"]
  | Num n => print_number n
  | Str s => print_string s
  | Arr elements => "[" :: print_seq print "]" elements
  | Obj members =>
      "{" :: print_seq
               (fun member : string * value =>
                  match member with
                  | (k, x) => print_string k ++ ":" :: print x
                  end) "}" members
  end.

Definition print_member (member : string * value) : list ascii :=
  match member with
  | (k, x) => print_string k ++ ":" :: print x
  end.

(** A measure of a value that bounds the depth of the calls that read its
    text back. *)
Fixpoint size (v : value) : nat :=
  match v with
  | Arr elements => S (list_sum (map (fun x => S (size x)) elements))
  | Obj members =>
      S (list_sum (map (fun member : string * value =>
                          S (match member with (_, x) => size x end)) members))
  | _ => 1%nat
  end.

Definition is_ws (c : ascii) : bool :=
  Ascii.eqb c " " || (N_of_ascii c =? 9)%N || (N_of_ascii c =? 10)%N
  || (N_of_ascii c =? 13)%N.

Fixpoint skip_ws (s : list ascii) : list ascii :=
  match s with
  | c :: r => if is_ws c then skip_ws r else s
  | [] => []
  end.

Fixpoint strip_prefix (p s : list ascii) : option (list ascii) :=
  match p, s with
  | [], _ => Some s
  | a :: p', b :: s' => if Ascii.eqb a b then strip_prefix p' s' else None
  | _ :: _, [] => None
  end.

Definition keyword (p : list ascii) (v : value) (s : list ascii)
    : option (value * list ascii) :=
  match strip_prefix p s with
  | Some r => Some (v, r)
  | None => None
  end.

Fixpoint parse_value (fuel : nat) (s : list ascii) {struct fuel}
    : option (value * list ascii) :=
  match fuel with
  | O => None
  | S fuel =>
      match skip_ws s with
      | [] => None
      | c :: r =>
          if Ascii.eqb c "n" then keyword ["u"; "l"; "l"] Null r
          else if Ascii.eqb c "t" then keyword ["r"; "u"; "e"] (Bool true) r
          else if Ascii.eqb c "f" then keyword ["a"; "l"; "s"; "e"] (Bool false) r
          else if Ascii.eqb c quote then
            match parse_chars r with
            | Some (str, r') => Some (Str str, r')
            | None => None
            end
          else if Ascii.eqb c "[" then
            match skip_ws r with
            | [] => None
            | c' :: r' =>
                if Ascii.eqb c' "]" then Some (Arr [], r')
                else
                  match parse_elements fuel (c' :: r') with
                  | Some (l, r'') => Some (Arr l, r'')
                  | None => None
                  end
            end
          else if Ascii.eqb c "{" then
            match skip_ws r with
            | [] => None
            | c' :: r' =>
                if Ascii.eqb c' "}" then Some (Obj [], r')
                else
                  match parse_members fuel (c' :: r') with
                  | Some (l, r'') => Some (Obj l, r'')
                  | None => None
                  end
            end
          else
            match parse_number (c :: r) with
            | Some (n, r') => Some (Num n, r')
            | None => None
            end
      end
  end
with parse_elements (fuel : nat) (s : list ascii) {struct fuel}
    : option (list value * list ascii) :=
  match fuel with
  | O => None
  | S fuel =>
      match parse_value fuel s with
      | None => None
      | Some (v, r) =>
          match skip_ws r with
          | [] => None
          | c :: r' =>
              if Ascii.eqb c "," then
                match parse_elements fuel r' with
                | Some (vs, r'') => Some (v :: vs, r'')
                | None => None
                end
              else if Ascii.eqb c "]" then Some ([v], r')
              else None
          end
      end
  end
with parse_members (fuel : nat) (s : list ascii) {struct fuel}
    : option (list (string * value) * list ascii) :=
  match fuel with
  | O => None
  | S fuel =>
      match skip_ws s with
      | [] => None
      | q :: r =>
          if negb (Ascii.eqb q quote) then None
          else
            match parse_chars r with
            | None => None
            | Some (k, r1) =>
                match skip_ws r1 with
                | [] => None
                | c :: r2 =>
                    if negb (Ascii.eqb c ":") then None
                    else
                      match parse_value fuel r2 with
                      | None => None
                      | Some (v, r3) =>
                          match skip_ws r3 with
                          | [] => None
                          | c' :: r4 =>
                              if Ascii.eqb c' "," then
                                match parse_members fuel r4 with
                                | Some (ms, r5) => Some ((k, v) :: ms, r5)
                                | None => None
                                end
                              else if Ascii.eqb c' "}" then Some ([(k, v)], r4)
                              else None
                          end
                      end
                end
            end
      end
  end.

(** A JSON text: one value, with nothing but white space after it.  Every
    step of the parser consumes a character, so the length of the text is
    fuel enough. *)
Definition parse (s : list ascii) : option value :=
  match parse_value (S (length s)) s with
  | Some (v, r) => match skip_ws r with [] => Some v | _ :: _ => None end
  | None => None
  end.

(** ** Notions used to state that [parse] inverts [print] *)

(** The text that follows a value inside a printed text: nothing, or one
    of the three delimiters. *)
Definition delimited (rest : list ascii) : bool :=
  match rest with
  | [] => true
  | c :: _ => Ascii.eqb c "," || Ascii.eqb c "]" || Ascii.eqb c "}"
  end.

Definition no_digit (rest : list ascii) : bool :=
  match rest with
  | [] => true
  | c :: _ => match digit_of c with Some _ => false | None => true end
  end.

(** First characters of a printed value, and of a printed number. *)
Definition number_start (c : ascii) : bool :=
  Ascii.eqb c "-" || match digit_of c with Some _ => true | None => false end.

Definition starter (c : ascii) : bool :=
  Ascii.eqb c "n" || Ascii.eqb c "t" || Ascii.eqb c "f" || Ascii.eqb c quote
  || Ascii.eqb c "[" || Ascii.eqb c "{" || number_start c.

Definition sizes (l : list value) : nat :=
  list_sum (map (fun x => S (size x)) l).
Definition member_sizes (l : list (string * value)) : nat :=
  list_sum (map (fun member : string * value =>
                   S (match member with (_, x) => size x end)) l).

Definition stringify (v : value) : string := string_of_list_ascii (print v).
Definition parse_text (text : string) : option value :=
  parse (list_ascii_of_string text).

End Json.

(* ================================================================== *)
(** * The stored records as JSON                                       *)
(* ================================================================== *)

(** How [JSON.stringify] writes the two record types, and how the fields
    are read back from a parsed object.  A property whose value is
    [undefined] is left out of the text; of two members with one key the
    later one is read.  A text that is JSON of another shape than the
    TypeScript annotation of the parsed value admits is reported like a text
    that does not parse. *)
Module Codec.

Import Json.
Local Open Scope string_scope.

Fixpoint get (key : string) (members : list (string * value)) : option value :=
  match members with
  | [] => None
  | (k, v) :: members' =>
      match get key members' with
      | Some v' => Some v'
      | None => if String.eqb k key then Some v else None
      end
  end.

Fixpoint all_zero (u : Decimal.uint) : bool :=
  match u with
  | Decimal.Nil => true
  | Decimal.D0 u => all_zero u
  | _ => false
  end.

Definition num_of_Z (z : Z) : number :=
  {| negative := (z <? 0)%Z; integral := Z.abs_N z; fraction := Decimal.Nil |}.

Definition Z_of_num (n : number) : option Z :=
  if all_zero (fraction n) then
    Some (if negative n then (- Z.of_N (integral n))%Z else Z.of_N (integral n))
  else None.

Definition get_string (key : string) (members : list (string * value))
    : option string :=
  match get key members with
  | Some (Str s) => Some s
  | _ => None
  end.

Definition get_int (key : string) (members : list (string * value)) : option Z :=
  match get key members with
  | Some (Num n) => Z_of_num n
  | _ => None
  end.

(** An optional string property: absent, or a string. *)
Definition get_optional (key : string) (members : list (string * value))
    : option (option string) :=
  match get key members with
  | None => Some None
  | Some (Str s) => Some (Some s)
  | Some _ => None
  end.

Definition optional (key : string) (o : option string) : list (string * value) :=
  match o with
  | Some s => [(key, Str s)]
  | None => []
  end.

(** ** [SessionData] *)

Definition session_to_json (s : UseSession.SessionData) : value :=
  Obj ([("connected", Bool (UseSession.connected s));
        ("timestamp", Num (num_of_Z (UseSession.timestamp s)))]
       ++ optional "walletAddress" (UseSession.walletAddress s)).

Definition session_of_json (v : value) : option UseSession.SessionData :=
  match v with
  | Obj members =>
      match get "connected" members with
      | Some (Bool c) =>
          t ← get_int "timestamp" members;
          w ← get_optional "walletAddress" members;
          Some {| UseSession.connected := c;
                  UseSession.timestamp := t;
                  UseSession.walletAddress := w |}
      | _ => None
      end
  | _ => None
  end.

(** ** [Subscription] *)

Import SubscriptionLib.

Definition cycle_to_string (c : BillingCycle) : string :=
  match c with
  | weekly => "weekly"
  | monthly => "monthly"
  | yearly => "yearly"
  end.

Definition cycle_of_string (s : string) : option BillingCycle :=
  if String.eqb s "weekly" then Some weekly
  else if String.eqb s "monthly" then Some monthly
  else if String.eqb s "yearly" then Some yearly
  else None.

Definition status_to_string (s : Status) : string :=
  match s with
  | active => "active"
  | cancelled => "cancelled"
  | expired => "expired"
  end.

Definition status_of_string (s : string) : option Status :=
  if String.eqb s "active" then Some active
  else if String.eqb s "cancelled" then Some cancelled
  else if String.eqb s "expired" then Some expired
  else None.

Definition subscription_to_json (sub : Subscription) : value :=
  Obj ([("id", Str (id sub));
        ("planId", Str (planId sub));
        ("walletAddress", Str (walletAddress sub));
        ("merchantAddress", Str (merchantAddress sub));
        ("amount", Num (amount sub));
        ("billingCycle", Str (cycle_to_string (billingCycle sub)));
        ("startDate", Num (num_of_Z (startDate sub)));
        ("nextBillingDate", Num (num_of_Z (nextBillingDate sub)));
        ("status", Str (status_to_string (status sub)))]
       ++ optional "lastPaymentTx" (lastPaymentTx sub)).

Definition subscription_of_json (v : value) : option Subscription :=
  match v with
  | Obj members =>
      i ← get_string "id" members;
      p ← get_string "planId" members;
      w ← get_string "walletAddress" members;
      m ← get_string "merchantAddress" members;
      a ← match get "amount" members with Some (Num n) => Some n | _ => None end;
      c ← get_string "billingCycle" members ≫= cycle_of_string;
      sd ← get_int "startDate" members;
      nb ← get_int "nextBillingDate" members;
      st ← get_string "status" members ≫= status_of_string;
      tx ← get_optional "lastPaymentTx" members;
      Some {| id := i; planId := p; walletAddress := w; merchantAddress := m;
              amount := a; billingCycle := c; startDate := sd;
              nextBillingDate := nb; status := st; lastPaymentTx := tx |}
  | _ => None
  end.

Definition ledger_to_json (l : list Subscription) : value :=
  Arr (map subscription_to_json l).

Definition ledger_of_json (v : value) : option (list Subscription) :=
  match v with
  | Arr elements => mapM subscription_of_json elements
  | _ => None
  end.

(** [JSON.stringify] and [JSON.parse] at the two types. *)
Definition stringify_session (s : UseSession.SessionData) : string :=
  stringify (session_to_json s).
Definition parse_session (text : string) : option UseSession.SessionData :=
  parse_text text ≫= session_of_json.

Definition stringify_ledger (l : list Subscription) : string :=
  stringify (ledger_to_json l).
Definition parse_ledger (text : string) : option (list Subscription) :=
  parse_text text ≫= ledger_of_json.

End Codec.

(* ================================================================== *)
(** * src/lib/subscription.ts: plans and display                       *)
(* ================================================================== *)

Module SubscriptionPlans.
Import SubscriptionLib.
Local Open Scope string_scope.

Record SubscriptionPlan := {
  plan_id : string;
  name : string;
  description : string;
  plan_amount : number;
  plan_billingCycle : BillingCycle;
  features : list string
}.

(** The decimal numeral [i.f] with two digits after the point. *)
Definition cents (i : N) (d1 d2 : Decimal.uint -> Decimal.uint) : number :=
  {| negative := false; integral := i; fraction := d1 (d2 Decimal.Nil) |}.

Definition DEMO_PLANS : list SubscriptionPlan :=
  [ {| plan_id := "basic"; name := "Basic";
       description := "Perfect for getting started";
       plan_amount := cents 4 Decimal.D9 Decimal.D9;
       plan_billingCycle := monthly;
       features := ["10 transactions per day"; "Basic support"; "API access"] |};
    {| plan_id := "pro"; name := "Pro";
       description := "For power users";
       plan_amount := cents 19 Decimal.D9 Decimal.D9;
       plan_billingCycle := monthly;
       features := ["Unlimited transactions"; "Priority support";
                    "Advanced API access"; "Custom webhooks"] |};
    {| plan_id := "enterprise"; name := "Enterprise";
       description := "For large organizations";
       plan_amount := cents 99 Decimal.D9 Decimal.D9;
       plan_billingCycle := monthly;
       features := ["Everything in Pro"; "Dedicated support";
                    "Custom integrations"; "SLA guarantee";
                    "White-label options"] |} ].

Definition formatBillingCycle (cycle : BillingCycle) : string :=
  match cycle with
  | weekly => "/week"
  | monthly => "/month"
  | yearly => "/year"
  end.

End SubscriptionPlans.

(* ================================================================== *)
(** * src/hooks/use-session.ts: the effects of the hook                *)
(* ================================================================== *)

Module UseSessionEffects.
Import UseSession.

(** How [await connect()] settles: it resolves, or it throws. *)
Inductive Connect := connect_resolves | connect_rejects.

(** The hook after [restoreSession]: its storage and [sessionInfo], its
    [isRestoring] flag, and whether [connect()] was called. *)
Record Restored := {
  hook : Hook;
  isRestoring : bool;
  connect_called : bool
}.

Section Effects.
Context `{JSON SessionData}.

(** [useEffect(() => { if (isConnected && smartWalletPubkey) saveSession() })];
    [now] is the reading of [Date.now()] in [saveSession]. *)
Definition save_when_connected (now : Z) (isConnected : bool)
    (smartWalletPubkey : option string) (h : Hook) : Hook :=
  if isConnected && bool_decide (is_Some smartWalletPubkey)
  then saveSession now smartWalletPubkey h
  else h.

(** [setSessionInfo(session)] *)
Definition setSessionInfo (session : option SessionData) (h : Hook) : Hook :=
  {| window := window h; sessionInfo := session |}.

(** The effect that runs on mount; [connect] is how [connect()] settles if
    it is called, [now] the reading of [Date.now()] in [isValidSession]. *)
Definition restoreSession (expiryMs now : Z) (connect : Connect) (h : Hook)
    : Restored :=
  let session := loadSession h in
  let h := setSessionInfo session h in
  if isValidSession expiryMs now session then
    match connect with
    | connect_resolves =>
        {| hook := h; isRestoring := false; connect_called := true |}
    | connect_rejects =>    (* catch *)
        {| hook := clearSession h; isRestoring := false; connect_called := true |}
    end
  else if bool_decide (is_Some session) then
    {| hook := clearSession h; isRestoring := false; connect_called := false |}
  else
    {| hook := h; isRestoring := false; connect_called := false |}.
End Effects.

(** The [isSessionValid] that the hook returns. *)
Definition isSessionValid (expiryMs now : Z) (h : Hook) : bool :=
  isValidSession expiryMs now (sessionInfo h).

End UseSessionEffects.

(* ================================================================== *)
(** * src/hooks/use-subscription.ts                                    *)
(* ================================================================== *)

(** The functions that the hook returns, each as the state it leaves
    once its promise has settled.  Building the payment instruction and
    [signAndSendTransaction] belong to the wallet: how they settle is an
    argument.  [console.error] is left out. *)
Module UseSubscription.
Import SubscriptionLib SubscriptionPlans.
Local Open Scope string_scope.

(** What [useWallet()] gives: the base-58 text of the key, if any, and the
    connection flag. *)
Record Wallet := {
  smartWalletPubkey : option string;
  isConnected : bool
}.

(** The state of the hook. *)
Record State := {
  subscriptions : list Subscription;
  isLoading : bool
}.

Inductive Toast :=
  | toast_error (message : string)
  | toast_success (message : string).

(** How the payment settles: with a signature, or with something thrown
    ([Some message] for an [Error]). *)
Inductive Payment :=
  | payment_signed (signature : string)
  | payment_failed (message : option string).

(** What a call leaves: the value of its promise, the state of the hook,
    the storage, and the notifications shown. *)
Record Outcome (A : Type) := {
  returned : A;
  state : State;
  window : Window;
  toasts : list Toast
}.
Arguments returned {A}.
Arguments state {A}.
Arguments window {A}.
Arguments toasts {A}.

Section Hook.
Variable zone : ESDate.Zone.
Context `{JSON (list Subscription)}.
Variable wallet : Wallet.

Definition refresh (w : Window) : list Subscription :=
  match smartWalletPubkey wallet with
  | Some key => getWalletSubscriptions w key
  | None => []
  end.

(** [!smartWalletPubkey || !isConnected] *)
Definition disconnected : bool :=
  negb (bool_decide (is_Some (smartWalletPubkey wallet)))
  || negb (isConnected wallet).

Definition loading (value : bool) (st : State) : State :=
  {| subscriptions := subscriptions st; isLoading := value |}.

(** [now] and [rnd] are the readings of the clock and of the random source
    in [createSubscription]. *)
Definition subscribe (payment : Payment) (now : Z) (rnd : string)
    (planId' merchantAddress' : string) (st : State) (w : Window)
    : Outcome (option string) :=
  match smartWalletPubkey wallet with
  | Some key =>
      if disconnected then
        {| returned := None; state := st; window := w;
           toasts := [toast_error "Please connect your wallet first"] |}
      else
        match list_find (fun p => plan_id p = planId') DEMO_PLANS with
        | None =>
            {| returned := None; state := st; window := w;
               toasts := [toast_error "Plan not found"] |}
        | Some (_, plan) =>
            match payment with
            | payment_signed signature =>
                let created :=
                  createSubscription zone now rnd planId' key merchantAddress'
                    (plan_amount plan) (plan_billingCycle plan)
                    (Some signature) w in
                {| returned := Some (id (fst created));
                   state := {| subscriptions := refresh (snd created);
                               isLoading := false |};
                   window := snd created;
                   toasts := [toast_success
                                ("Subscribed to " +:+ name plan +:+ " plan!")] |}
            | payment_failed message =>
                {| returned := None; state := loading false st; window := w;
                   toasts := [toast_error
                                (default "Failed to create subscription" message)] |}
            end
        end
  | None =>
      {| returned := None; state := st; window := w;
         toasts := [toast_error "Please connect your wallet first"] |}
  end.

Definition cancel (subscriptionId : string) (st : State) (w : Window)
    : Outcome bool :=
  let result := cancelSubscription subscriptionId w in
  if fst result then
    {| returned := true;
       state := {| subscriptions := refresh (snd result); isLoading := false |};
       window := snd result;
       toasts := [toast_success "Subscription cancelled"] |}
  else
    {| returned := false; state := loading false st; window := snd result;
       toasts := [toast_error "Subscription not found"] |}.

(** [now] is the time of [new Date()] in [recordPayment]. *)
Definition processPayment (payment : Payment) (now : Z)
    (subscriptionId : string) (st : State) (w : Window)
    : Outcome (option string) :=
  if disconnected then
    {| returned := None; state := st; window := w;
       toasts := [toast_error "Please connect your wallet first"] |}
  else
    match list_find (fun s => id s = subscriptionId) (subscriptions st) with
    | None =>
        {| returned := None; state := st; window := w;
           toasts := [toast_error "Subscription not found"] |}
    | Some (_, subscription) =>
        if negb (bool_decide (status subscription = active)) then
          {| returned := None; state := st; window := w;
             toasts := [toast_error "Subscription is not active"] |}
        else
          match payment with
          | payment_signed signature =>
              let w' := snd (recordPayment zone now subscriptionId signature w) in
              {| returned := Some signature;
                 state := {| subscriptions := refresh w'; isLoading := false |};
                 window := w';
                 toasts := [toast_success "Payment processed successfully!"] |}
          | payment_failed message =>
              {| returned := None; state := loading false st; window := w;
                 toasts := [toast_error
                              (default "Failed to process payment" message)] |}
          end
    end.
End Hook.

(** [getSubscriptionStatus]: [now] is the reading of [Date.now()]. *)
Definition getSubscriptionStatus (now : Z) (subscription : Subscription)
    : bool * Z :=
  (isPaymentDue now subscription, getDaysUntilBilling now subscription).

End UseSubscription.

(* ================================================================== *)
(** * The session page: the age of the session                         *)
(* ================================================================== *)

Module SessionPage.

(** [getSessionAge(ts)]: the hours and the minutes that it shows.  [%] is
    the remainder that takes the sign of the dividend. *)
Definition sessionAge (now ts : Z) : Z * Z :=
  let age := now - ts in
  let hours := age / (1000 * 60 * 60) in
  let minutes := Z.rem age (1000 * 60 * 60) / (1000 * 60) in
  (hours, minutes).

Definition getSessionAge (now ts : Z) : string :=
  let '(hours, minutes) := sessionAge now ts in
  Z_to_string hours +:+ "h " +:+ Z_to_string minutes +:+ "m ago".

End SessionPage.

(* ================================================================== *)
(** * The subscription page and the subscription manager             *)
(* ================================================================== *)

Module SubscriptionPage.
Import SubscriptionLib.

(** [subscriptions.filter((sub) => sub.status === 'active')] of the
    subscription manager. *)
Definition activeSubscriptions (subscriptions : list Subscription)
    : list Subscription :=
  filter (fun sub => status sub = active) subscriptions.

(** [activeSub?.planId || null] of the page: an empty [planId] is falsy. *)
Definition getActivePlanId (subscriptions : list Subscription) : option string :=
  match list_find (fun s => status s = active) subscriptions with
  | Some (_, activeSub) =>
      if truthy (Some (planId activeSub)) then Some (planId activeSub) else None
  | None => None
  end.

End SubscriptionPage.

(* ================================================================== *)
(** * What the properties of the ledger speak of                     *)
(* ================================================================== *)

Module Observations.
Import ESDate SubscriptionLib.
Local Open Scope string_scope.

(** The fields of a record that no function assigns. *)
Definition core (r : Subscription) :=
  (id r, planId r, walletAddress r, merchantAddress r, amount r,
   billingCycle r, startDate r).

(** The days of the cycle that starts at [now]. *)
Definition cycle_days (zone : Zone) (now : Z) (cycle : BillingCycle) : Z :=
  match cycle with
  | weekly => 7
  | monthly => DaysInMonth (getFullYear zone now) (getMonth zone now)
  | yearly => yearStep (getFullYear zone now) (getMonth zone now)
  end.

(** No underscore among the characters of [s]. *)
Fixpoint no_underscore (s : string) : bool :=
  match s with
  | EmptyString => true
  | String c s => negb (Ascii.eqb c "_") && no_underscore s
  end.

(** The key of a creation: the readings of the clock and of the random
    source; and the id made of them. *)
Definition key_id (key : Z * string) : string :=
  "sub_" +:+ Z_to_string (fst key) +:+ "_" +:+ snd key.

Definition create_keys (ops : list Op) : list (Z * string) :=
  omap (fun op => match op with
                  | Create now rnd _ _ _ _ _ _ => Some (now, rnd)
                  | _ => None
                  end) ops.

End Observations.

(* ================================================================== *)
(** * Sample data                                                      *)
(* ================================================================== *)

Module Demo.
Import SubscriptionLib.
Local Open Scope string_scope.

(** 4.99 *)
Definition amount_4_99 : number :=
  {| negative := false; integral := 4;
     fraction := Decimal.D9 (Decimal.D9 Decimal.Nil) |}.

(** 2025-01-31T00:00:00Z and 2025-03-03T00:00:00Z *)
Definition jan_31 : Z := 1738281600000.
Definition mar_3 : Z := 1740960000000.

Definition record (id' : string) (status' : Status) : Subscription :=
  {| id := id'; planId := "basic";
     walletAddress := "9xQeWvG816bUx9EPjHmaT23yvVM2ZWbrrpZb9PusVFin";
     merchantAddress := "DemoMerchant11111111111111111111111111111111";
     amount := amount_4_99; billingCycle := monthly;
     startDate := jan_31; nextBillingDate := mar_3;
     status := status'; lastPaymentTx := Some "5VERv8NMvzbJMEkV8xnrLkEaWRtSz9CosKDYjCJjBRnb" |}.

(** New York in 2025: five hours behind UTC, and four from 9 March, 07:00
    UTC, to 2 November, 06:00 UTC.  A local time between 02:00 and 03:00 of
    9 March does not exist, one between 01:00 and 02:00 of 2 November occurs
    twice: both are read with the offset before the change. *)
Definition hour : Z := 3600000.
Definition spring_forward : Z := ESDate.utcMidnight 2025 2 9 + 7 * hour.
Definition fall_back : Z := ESDate.utcMidnight 2025 10 2 + 6 * hour.

Definition new_york_2025 : ESDate.Zone :=
  fun t isUTC =>
    if isUTC then
      if ((spring_forward <=? t) && (t <? fall_back))%Z
      then -4 * hour else -5 * hour
    else
      if ((spring_forward - 4 * hour <=? t) && (t <? fall_back - 4 * hour))%Z
      then -4 * hour else -5 * hour.


(** [s] between double quotes. *)
Definition quoted (s : string) : string :=
  String Json.quote (s +:+ String Json.quote EmptyString).

(** A storage that holds the ledger [l]. *)
Definition storage (l : list Subscription) : Storage :=
  {[ SUBSCRIPTIONS_KEY := Codec.stringify_ledger l ]}.
End Demo.

(* ================================================================== *)
(** * Calendar arithmetic                                              *)
(* ================================================================== *)

Module ESDateFacts.
Import ESDate.
Local Open Scope Z_scope.

Example YearFromTime_epoch : YearFromTime 0 = 1970.
Proof. reflexivity. Qed.

Example fields_2025_01_31 :
  let t := utcMidnight 2025 0 31 in
  t = 1738281600000 /\
  fields (fixedOffset 0) t = (2025, 0, 31).
Proof. vm_compute. split; reflexivity. Qed.

Example fields_before_epoch :
  let t := -1 in
  fields (fixedOffset 0) t = (1969, 11, 31).
Proof. vm_compute. reflexivity. Qed.

Ltac divide := Z.div_mod_to_equations; lia.

(** Evaluate [monthStart] at the months that occur as numerals. *)
Ltac months :=
  repeat match goal with
         | |- context [monthStart ?l (?a + 1)] =>
             let v := eval vm_compute in (a + 1) in change (a + 1) with v
         | H : context [monthStart ?l (?a + 1)] |- _ =>
             let v := eval vm_compute in (a + 1) in change (a + 1) with v in H
         end;
  cbn [monthStart] in *.

Lemma DaysInYear_cases y : DaysInYear y = 365 \/ DaysInYear y = 366.
Proof.
  unfold DaysInYear.
  destruct (y mod 4 =? 0), (y mod 100 =? 0), (y mod 400 =? 0); simpl; auto.
Qed.

Lemma leapOfYear_DaysInYear y : DaysInYear y = 365 + leapOfYear y.
Proof.
  unfold leapOfYear. destruct (DaysInYear_cases y) as [-> | ->]; reflexivity.
Qed.

Lemma leapOfYear_cases y : leapOfYear y = 0 \/ leapOfYear y = 1.
Proof.
  unfold leapOfYear. destruct (DaysInYear_cases y) as [-> | ->]; auto.
Qed.

Lemma DayFromYear_succ y : DayFromYear (y + 1) = DayFromYear y + DaysInYear y.
Proof.
  unfold DayFromYear, DaysInYear.
  destruct (Z.eqb_spec (y mod 4) 0), (Z.eqb_spec (y mod 100) 0),
    (Z.eqb_spec (y mod 400) 0); simpl; divide.
Qed.

Lemma DayFromYear_lt y y' : y < y' -> DayFromYear y < DayFromYear y'.
Proof. unfold DayFromYear. intros. divide. Qed.

Lemma DayFromYear_le y y' : y <= y' -> DayFromYear y <= DayFromYear y'.
Proof. unfold DayFromYear. intros. divide. Qed.

Lemma YearFromTime_spec t :
  DayFromYear (YearFromTime t) <= Day t < DayFromYear (YearFromTime t + 1).
Proof.
  unfold YearFromTime. set (d := Day t). clearbody d.
  set (y := 1970 + 400 * d / 146097).
  assert (Hlo : DayFromYear (y - 1) <= d) by (subst y; unfold DayFromYear; divide).
  assert (Hhi : d < DayFromYear (y + 2)) by (subst y; unfold DayFromYear; divide).
  clearbody y.
  destruct (Z.leb_spec (DayFromYear (y + 1)) d).
  { replace (y + 1 + 1) with (y + 2) by lia. lia. }
  destruct (Z.leb_spec (DayFromYear y) d).
  { lia. }
  replace (y - 1 + 1) with y by lia. lia.
Qed.

Lemma YearFromTime_unique t y :
  DayFromYear y <= Day t < DayFromYear (y + 1) -> YearFromTime t = y.
Proof.
  intros Hy. pose proof (YearFromTime_spec t) as Ht.
  destruct (Z.lt_trichotomy (YearFromTime t) y) as [Hlt | [Heq | Hgt]]; [|assumption|].
  - pose proof (DayFromYear_le (YearFromTime t + 1) y ltac:(lia)). lia.
  - pose proof (DayFromYear_le (y + 1) (YearFromTime t) ltac:(lia)). lia.
Qed.

(** [YearFromTime t] is the largest year that starts at or before [t]. *)
Lemma YearFromTime_largest t y :
  TimeFromYear y <= t <-> y <= YearFromTime t.
Proof.
  pose proof (YearFromTime_spec t) as Ht. unfold TimeFromYear, Day, msPerDay in *.
  split; intros Hy.
  - destruct (Z.le_gt_cases y (YearFromTime t)) as [|Hgt]; [assumption|].
    pose proof (DayFromYear_le (YearFromTime t + 1) y ltac:(lia)).
    divide.
  - pose proof (DayFromYear_le y (YearFromTime t) Hy). divide.
Qed.

Lemma InLeapYear_leapOfYear t : InLeapYear t = leapOfYear (YearFromTime t).
Proof. reflexivity. Qed.

Lemma DayWithinYear_bounds t :
  0 <= DayWithinYear t < 365 + InLeapYear t.
Proof.
  unfold DayWithinYear. pose proof (YearFromTime_spec t) as Ht.
  rewrite DayFromYear_succ, leapOfYear_DaysInYear in Ht.
  rewrite InLeapYear_leapOfYear. lia.
Qed.

Lemma monthStart_monthOfDay leap dwy :
  (leap = 0 \/ leap = 1) -> 0 <= dwy < 365 + leap ->
  let m := monthOfDay leap dwy in
  0 <= m <= 11 /\ monthStart leap m <= dwy < monthStart leap (m + 1).
Proof.
  intros Hl Hd. unfold monthOfDay. cbv zeta.
  repeat match goal with
         | |- context [?a <? ?b] => destruct (Z.ltb_spec a b)
         end; months; lia.
Qed.

Lemma monthOfDay_unique leap dwy m :
  (leap = 0 \/ leap = 1) -> 0 <= m <= 11 ->
  monthStart leap m <= dwy < monthStart leap (m + 1) ->
  monthOfDay leap dwy = m.
Proof.
  intros Hl Hm Hd.
  assert (Hc : m = 0 \/ m = 1 \/ m = 2 \/ m = 3 \/ m = 4 \/ m = 5 \/ m = 6
               \/ m = 7 \/ m = 8 \/ m = 9 \/ m = 10 \/ m = 11) by lia.
  unfold monthOfDay.
  repeat destruct Hc as [-> | Hc]; try subst m; months;
    repeat match goal with
           | |- context [?a <? ?b] => destruct (Z.ltb_spec a b)
           end; lia.
Qed.

Lemma MonthFromTime_bounds t : 0 <= MonthFromTime t <= 11.
Proof.
  unfold MonthFromTime.
  apply monthStart_monthOfDay; [|apply DayWithinYear_bounds].
  rewrite InLeapYear_leapOfYear. destruct (leapOfYear_cases (YearFromTime t)); auto.
Qed.

Lemma DaysInMonth_bounds y m : 0 <= m <= 11 -> 28 <= DaysInMonth y m <= 31.
Proof.
  intros Hm. unfold DaysInMonth.
  assert (Hc : m = 0 \/ m = 1 \/ m = 2 \/ m = 3 \/ m = 4 \/ m = 5 \/ m = 6
               \/ m = 7 \/ m = 8 \/ m = 9 \/ m = 10 \/ m = 11) by lia.
  destruct (leapOfYear_cases y) as [-> | ->];
    repeat destruct Hc as [-> | Hc]; try subst m; months; lia.
Qed.

Lemma DateFromTime_bounds t :
  1 <= DateFromTime t <= DaysInMonth (YearFromTime t) (MonthFromTime t).
Proof.
  unfold DateFromTime, DaysInMonth, MonthFromTime.
  rewrite <- InLeapYear_leapOfYear.
  pose proof (monthStart_monthOfDay (InLeapYear t) (DayWithinYear t)) as H.
  cbv zeta in H. 
  destruct H as [_ H]; [|apply DayWithinYear_bounds|lia].
  rewrite InLeapYear_leapOfYear. destruct (leapOfYear_cases (YearFromTime t)); auto.
Qed.

(** The day number of a time value, from its calendar fields. *)
Lemma Day_fields t :
  Day t = MakeDay (YearFromTime t) (MonthFromTime t) (DateFromTime t).
Proof.
  pose proof (MonthFromTime_bounds t) as Hm.
  unfold MakeDay.
  replace (MonthFromTime t / 12) with 0 by divide.
  replace (MonthFromTime t mod 12) with (MonthFromTime t) by divide.
  rewrite Z.add_0_r. unfold DateFromTime, DayWithinYear.
  rewrite InLeapYear_leapOfYear. lia.
Qed.

Lemma MakeDate_Day day time :
  0 <= time < msPerDay ->
  Day (MakeDate day time) = day /\ TimeWithinDay (MakeDate day time) = time.
Proof.
  unfold Day, TimeWithinDay, MakeDate, msPerDay. intros. split; divide.
Qed.

Lemma TimeWithinDay_bounds t : 0 <= TimeWithinDay t < msPerDay.
Proof. unfold TimeWithinDay, msPerDay. divide. Qed.

Lemma MakeDate_split t : MakeDate (Day t) (TimeWithinDay t) = t.
Proof. unfold MakeDate, Day, TimeWithinDay, msPerDay. divide. Qed.

(** Calendar fields of a date given by a year, a month and a day that
    exists in that month. *)
Lemma fields_MakeDay y m d time :
  0 <= m <= 11 -> 1 <= d <= DaysInMonth y m -> 0 <= time < msPerDay ->
  let t := MakeDate (MakeDay y m d) time in
  YearFromTime t = y /\ MonthFromTime t = m /\ DateFromTime t = d
  /\ TimeWithinDay t = time.
Proof.
  intros Hm Hd Ht t.
  destruct (MakeDate_Day (MakeDay y m d) time Ht) as [HD HT]. fold t in HD, HT.
  assert (Hday : MakeDay y m d = DayFromYear y + monthStart (leapOfYear y) m + d - 1).
  { unfold MakeDay. replace (m / 12) with 0 by divide.
    replace (m mod 12) with m by divide. now rewrite Z.add_0_r. }
  assert (Hin : monthStart (leapOfYear y) m <= monthStart (leapOfYear y) m + d - 1
                < monthStart (leapOfYear y) (m + 1)).
  { unfold DaysInMonth in Hd. lia. }
  assert (Hyr : 0 <= monthStart (leapOfYear y) m
                /\ monthStart (leapOfYear y) (m + 1) <= 365 + leapOfYear y).
  { assert (Hc : m = 0 \/ m = 1 \/ m = 2 \/ m = 3 \/ m = 4 \/ m = 5 \/ m = 6
                 \/ m = 7 \/ m = 8 \/ m = 9 \/ m = 10 \/ m = 11) by lia.
    destruct (leapOfYear_cases y) as [-> | ->];
      repeat destruct Hc as [-> | Hc]; try subst m; months; lia. }
  assert (HY : YearFromTime t = y).
  { apply YearFromTime_unique. rewrite HD, Hday, DayFromYear_succ,
      leapOfYear_DaysInYear. lia. }
  assert (Hdwy : DayWithinYear t = monthStart (leapOfYear y) m + d - 1).
  { unfold DayWithinYear. rewrite HY, HD, Hday. lia. }
  assert (HM : MonthFromTime t = m).
  { unfold MonthFromTime. rewrite InLeapYear_leapOfYear, HY, Hdwy.
    apply monthOfDay_unique; [apply leapOfYear_cases | assumption | assumption]. }
  repeat split; try assumption.
  unfold DateFromTime. rewrite HM, InLeapYear_leapOfYear, HY, Hdwy. lia.
Qed.

Lemma twelve_months m :
  0 <= m <= 11 ->
  m = 0 \/ m = 1 \/ m = 2 \/ m = 3 \/ m = 4 \/ m = 5 \/ m = 6
  \/ m = 7 \/ m = 8 \/ m = 9 \/ m = 10 \/ m = 11.
Proof. lia. Qed.

Lemma MakeDay_date y m d k : MakeDay y m (d + k) = MakeDay y m d + k.
Proof. unfold MakeDay. lia. Qed.

Lemma MakeDay_next_month y m d :
  0 <= m <= 11 -> MakeDay y (m + 1) d = MakeDay y m d + DaysInMonth y m.
Proof.
  intros Hm. destruct (Z.eq_dec m 11) as [-> | Hne].
  - unfold MakeDay, DaysInMonth.
    change (11 + 1) with 12. change (12 / 12) with 1. change (12 mod 12) with 0.
    change (11 / 12) with 0. change (11 mod 12) with 11.
    rewrite !Z.add_0_r, DayFromYear_succ, leapOfYear_DaysInYear.
    cbn [monthStart]. lia.
  - unfold MakeDay, DaysInMonth.
    replace ((m + 1) / 12) with 0 by divide.
    replace ((m + 1) mod 12) with (m + 1) by divide.
    replace (m / 12) with 0 by divide.
    replace (m mod 12) with m by divide.
    rewrite !Z.add_0_r. lia.
Qed.

Lemma MakeDay_month_12 y d : MakeDay y 12 d = MakeDay (y + 1) 0 d.
Proof.
  unfold MakeDay. change (12 / 12) with 1. change (0 / 12) with 0.
  change (12 mod 12) with 0. change (0 mod 12) with 0.
  now replace (y + 1 + 0) with (y + 1) by lia.
Qed.

Lemma MakeDay_next_year y m d :
  0 <= m <= 11 -> MakeDay (y + 1) m d = MakeDay y m d + yearStep y m.
Proof.
  intros Hm. unfold MakeDay, yearStep.
  replace (m / 12) with 0 by divide.
  replace (m mod 12) with m by divide.
  rewrite !Z.add_0_r, DayFromYear_succ. lia.
Qed.

Lemma yearStep_cases y m : 0 <= m <= 11 -> yearStep y m = 365 \/ yearStep y m = 366.
Proof.
  intros Hm. unfold yearStep. rewrite leapOfYear_DaysInYear.
  assert (Hl : leapOfYear y = 0 \/ leapOfYear (y + 1) = 0).
  { unfold leapOfYear, DaysInYear.
    destruct (Z.eqb_spec (y mod 4) 0), (Z.eqb_spec ((y + 1) mod 4) 0);
      simpl; auto. exfalso. divide. }
  destruct (leapOfYear_cases y) as [H0 | H0], (leapOfYear_cases (y + 1)) as [H1 | H1];
    rewrite H0, H1 in *;
    destruct (twelve_months m Hm) as
      [-> | [-> | [-> | [-> | [-> | [-> | [-> | [-> | [-> | [-> | [-> | ->]]]]]]]]]]];
    cbn [monthStart]; lia.
Qed.

Lemma MakeDate_shift day k time :
  MakeDate (day + k) time = MakeDate day time + k * msPerDay.
Proof. unfold MakeDate. lia. Qed.

(** A local time value is made of its own calendar fields. *)
Lemma local_split t :
  MakeDate (MakeDay (YearFromTime t) (MonthFromTime t) (DateFromTime t))
           (TimeWithinDay t) = t.
Proof. rewrite <- Day_fields. apply MakeDate_split. Qed.

(** Calendar fields of the local time value of an existing day [d] of
    month [m] of year [y]. *)
Lemma localFields_MakeDay y m d time :
  0 <= m <= 11 -> 1 <= d <= DaysInMonth y m -> 0 <= time < msPerDay ->
  localFields (MakeDate (MakeDay y m d) time) = (y, m, d).
Proof.
  intros Hm Hd Ht. unfold localFields.
  destruct (fields_MakeDay y m d time Hm Hd Ht) as (-> & -> & -> & _).
  reflexivity.
Qed.

Lemma Day_shift t k : Day (t + k * msPerDay) = Day t + k.
Proof. unfold Day, msPerDay. divide. Qed.

Lemma TimeWithinDay_shift t k : TimeWithinDay (t + k * msPerDay) = TimeWithinDay t.
Proof. unfold TimeWithinDay, msPerDay. divide. Qed.

Section Zone.
Variable zone : Zone.

Lemma fields_localFields tv : fields zone tv = localFields (LocalTime zone tv).
Proof. reflexivity. Qed.

(** The setters at a date moved by whole days: the local time moves by
    these days, and is read in the zone as a time value. *)
Lemma setDate_plus tv k :
  setDate zone tv (getDate zone tv + k)
  = UTC zone (LocalTime zone tv + k * msPerDay).
Proof.
  unfold setDate, getDate.
  now rewrite MakeDay_date, MakeDate_shift, local_split.
Qed.

Lemma setMonth_next tv :
  setMonth zone tv (getMonth zone tv + 1)
  = UTC zone (LocalTime zone tv
              + DaysInMonth (getFullYear zone tv) (getMonth zone tv) * msPerDay).
Proof.
  unfold setMonth, getMonth, getFullYear.
  rewrite MakeDay_next_month by apply MonthFromTime_bounds.
  now rewrite MakeDate_shift, local_split.
Qed.

Lemma setFullYear_next tv :
  setFullYear zone tv (getFullYear zone tv + 1)
  = UTC zone (LocalTime zone tv
              + yearStep (getFullYear zone tv) (getMonth zone tv) * msPerDay).
Proof.
  unfold setFullYear, getMonth, getFullYear.
  rewrite MakeDay_next_year by apply MonthFromTime_bounds.
  now rewrite MakeDate_shift, local_split.
Qed.

(** What [UTC] gives for a local time, in terms of the offsets. *)
Lemma UTC_LocalTime_plus tv k :
  UTC zone (LocalTime zone tv + k)
  = tv + k + (zone tv true - zone (LocalTime zone tv + k) false).
Proof. unfold UTC, LocalTime. lia. Qed.

(** A local time is read back from the time value that [UTC] gives for it
    when the offset in force at that time value is the one that [UTC]
    used: always, but for a local time that a change of offset skips. *)
Lemma LocalTime_UTC t :
  zone (UTC zone t) true = zone t false -> LocalTime zone (UTC zone t) = t.
Proof. unfold LocalTime, UTC. lia. Qed.
End Zone.

(** ** A zone of fixed offset *)

Lemma LocalTime_fixedOffset tza t : LocalTime (fixedOffset tza) t = t + tza.
Proof. reflexivity. Qed.

Lemma UTC_fixedOffset tza t : UTC (fixedOffset tza) t = t - tza.
Proof. reflexivity. Qed.

Lemma UTC_LocalTime_fixedOffset tza tv k :
  UTC (fixedOffset tza) (LocalTime (fixedOffset tza) tv + k) = tv + k.
Proof. unfold UTC, LocalTime, fixedOffset. lia. Qed.

Lemma offsets_within_fixedOffset tza span :
  0 < span -> offsets_within (fixedOffset tza) span.
Proof. intros Hs t t' b b'. unfold fixedOffset. lia. Qed.

End ESDateFacts.

(* ================================================================== *)
(** * The parser reads back what the printer writes                    *)
(* ================================================================== *)

Module JsonFacts.
Import Json.
Local Open Scope char_scope.
Local Open Scope list_scope.

Lemma read_digits_no_digit rest :
  no_digit rest = true -> read_digits rest = (Decimal.Nil, rest).
Proof.
  destruct rest as [|c r]; simpl; [reflexivity|].
  destruct (digit_of c); [discriminate | reflexivity].
Qed.

Lemma read_digits_chars u rest :
  no_digit rest = true -> read_digits (uint_chars u ++ rest) = (u, rest).
Proof.
  intros Hr. induction u; simpl; try rewrite IHu; try reflexivity.
  now apply read_digits_no_digit.
Qed.

Lemma to_uint_norm n : Decimal.unorm (N.to_uint n) = N.to_uint n.
Proof.
  rewrite <- (DecimalN.Unsigned.of_to n) at 2.
  now rewrite DecimalN.Unsigned.to_of.
Qed.

Lemma unorm_not_nil u : is_nil (Decimal.unorm u) = false.
Proof. unfold Decimal.unorm. now destruct (Decimal.nzhead u). Qed.

Lemma to_uint_not_nil n : is_nil (N.to_uint n) = false.
Proof. rewrite <- to_uint_norm. apply unorm_not_nil. Qed.

Lemma uint_beq_refl u : Decimal.uint_beq u u = true.
Proof. induction u; simpl; auto. Qed.

Lemma delimited_no_digit rest : delimited rest = true -> no_digit rest = true.
Proof.
  destruct rest as [|c r]; simpl; [reflexivity|].
  intros H. apply orb_prop in H as [H|H]; [apply orb_prop in H as [H|H]|];
    apply Ascii.eqb_eq in H; subst c; reflexivity.
Qed.

Lemma delimited_no_exponent rest :
  delimited rest = true -> starts_exponent rest = false.
Proof.
  destruct rest as [|c r]; simpl; [reflexivity|].
  intros H. apply orb_prop in H as [H|H]; [apply orb_prop in H as [H|H]|];
    apply Ascii.eqb_eq in H; subst c; reflexivity.
Qed.

Lemma delimited_no_point c r :
  delimited (c :: r) = true -> Ascii.eqb c "." = false.
Proof.
  simpl. intros H. apply orb_prop in H as [H|H]; [apply orb_prop in H as [H|H]|];
    apply Ascii.eqb_eq in H; subst c; reflexivity.
Qed.

(** The digits of a numeral do not begin with a minus sign. *)
Lemma uint_chars_head u rest c r :
  uint_chars u ++ rest = c :: r -> is_nil u = false ->
  Ascii.eqb c "-" = false /\ exists d, digit_of c = Some d.
Proof.
  destruct u; simpl; intros Heq Hn; try discriminate;
    injection Heq as <- _; (split; [reflexivity | eexists; reflexivity]).
Qed.

Lemma parse_unsigned neg n f rest :
  delimited rest = true ->
  (let (ip, s2) := read_digits (uint_chars (N.to_uint n) ++
       (if is_nil f then [] else "." :: uint_chars f) ++ rest) in
   if is_nil ip then None
   else if negb (Decimal.uint_beq (Decimal.unorm ip) ip) then None
   else
     match s2 with
     | c :: r =>
         if Ascii.eqb c "." then
           let (fp, s3) := read_digits r in
           if is_nil fp || starts_exponent s3 then None
           else Some ({| negative := neg; integral := N.of_uint ip; fraction := fp |}, s3)
         else if starts_exponent s2 then None
         else Some ({| negative := neg; integral := N.of_uint ip;
                       fraction := Decimal.Nil |}, s2)
     | [] => Some ({| negative := neg; integral := N.of_uint ip;
                      fraction := Decimal.Nil |}, [])
     end) = Some ({| negative := neg; integral := n; fraction := f |}, rest).
Proof.
  intros Hd.
  rewrite read_digits_chars.
  2:{ destruct (is_nil f); simpl; [now apply delimited_no_digit | reflexivity]. }
  rewrite to_uint_not_nil, to_uint_norm, uint_beq_refl, DecimalN.Unsigned.of_to.
  simpl negb. cbv iota.
  destruct (is_nil f) eqn:Hf.
  - destruct f; try discriminate. simpl.
    destruct rest as [|c r]; [reflexivity|].
    rewrite (delimited_no_point _ _ Hd).
    now rewrite (delimited_no_exponent _ Hd).
  - simpl. rewrite read_digits_chars by now apply delimited_no_digit.
    rewrite Hf, (delimited_no_exponent _ Hd). reflexivity.
Qed.

Lemma parse_number_print n rest :
  delimited rest = true ->
  parse_number (print_number n ++ rest) = Some (n, rest).
Proof.
  intros Hd. destruct n as [neg ip f]. unfold print_number. simpl.
  destruct neg; simpl.
  - unfold parse_number. simpl.
    rewrite <- app_assoc. now apply parse_unsigned.
  - unfold parse_number.
    destruct (uint_chars (N.to_uint ip) ++ (if is_nil f then [] else "." :: uint_chars f) ++ rest)
      as [|c r] eqn:Heq.
    + exfalso. pose proof (to_uint_not_nil ip) as Hn.
      destruct (N.to_uint ip); simpl in *; discriminate.
    + rewrite <- app_assoc, Heq.
      destruct (uint_chars_head _ _ _ _ Heq (to_uint_not_nil ip)) as [-> _].
      rewrite <- Heq. now apply parse_unsigned.
Qed.

Ltac each_char c := destruct c as [[] [] [] [] [] [] [] []].

Lemma parse_chars_escape_char c r :
  parse_chars (escape_char c ++ r) = cons_char c (parse_chars r).
Proof. each_char c; reflexivity. Qed.

Lemma parse_chars_escape s rest :
  parse_chars (escape s ++ quote :: rest) = Some (s, rest).
Proof.
  induction s as [|c s IH]; simpl; [reflexivity|].
  now rewrite <- app_assoc, parse_chars_escape_char, IH.
Qed.

Lemma print_number_head n rest :
  exists c r, print_number n ++ rest = c :: r /\ number_start c = true.
Proof.
  destruct n as [neg ip f]. unfold print_number; simpl.
  destruct neg; simpl; [eexists _, _; split; reflexivity|].
  pose proof (to_uint_not_nil ip) as Hn.
  destruct (N.to_uint ip); simpl in *; try discriminate;
    eexists _, _; split; reflexivity.
Qed.

Lemma print_head v rest :
  exists c r, print v ++ rest = c :: r /\ starter c = true.
Proof.
  destruct v as [|[]|n|s|l|l]; simpl; try (eexists _, _; split; reflexivity).
  destruct (print_number_head n rest) as (c & r & -> & Hc).
  exists c, r. split; [reflexivity|].
  unfold starter. rewrite Hc. now rewrite !orb_true_r.
Qed.

Lemma starter_not_ws c : starter c = true -> is_ws c = false.
Proof. each_char c; intros H; try discriminate H; reflexivity. Qed.

Lemma starter_not_close c :
  starter c = true -> Ascii.eqb c "]" = false /\ Ascii.eqb c "}" = false.
Proof. each_char c; intros H; try discriminate H; split; reflexivity. Qed.

Lemma skip_ws_print v rest : skip_ws (print v ++ rest) = print v ++ rest.
Proof.
  destruct (print_head v rest) as (c & r & -> & Hc).
  simpl. now rewrite (starter_not_ws _ Hc).
Qed.

Lemma parse_value_number fuel c r :
  number_start c = true ->
  parse_value (S fuel) (c :: r) =
  match parse_number (c :: r) with
  | Some (n, r') => Some (Num n, r')
  | None => None
  end.
Proof. each_char c; intros H; try discriminate H; reflexivity. Qed.

Lemma size_pos v : (1 <= size v)%nat.
Proof. destruct v; simpl; lia. Qed.

Lemma parse_value_string fuel r :
  parse_value (S fuel) (quote :: r) =
  match parse_chars r with
  | Some (str, r') => Some (Str str, r')
  | None => None
  end.
Proof. reflexivity. Qed.

Lemma parse_value_array fuel c r :
  is_ws c = false -> Ascii.eqb c "]" = false ->
  parse_value (S fuel) ("[" :: c :: r) =
  match parse_elements fuel (c :: r) with
  | Some (l, r') => Some (Arr l, r')
  | None => None
  end.
Proof.
  intros Hw Hc.
  change (parse_value (S fuel) ("[" :: c :: r)) with
    (match skip_ws (c :: r) with
     | [] => None
     | c' :: r' =>
         if Ascii.eqb c' "]" then Some (Arr [], r')
         else match parse_elements fuel (c' :: r') with
              | Some (l, r'') => Some (Arr l, r'')
              | None => None
              end
     end).
  cbn [skip_ws]. now rewrite Hw, Hc.
Qed.

Lemma parse_value_object fuel c r :
  is_ws c = false -> Ascii.eqb c "}" = false ->
  parse_value (S fuel) ("{" :: c :: r) =
  match parse_members fuel (c :: r) with
  | Some (l, r') => Some (Obj l, r')
  | None => None
  end.
Proof.
  intros Hw Hc.
  change (parse_value (S fuel) ("{" :: c :: r)) with
    (match skip_ws (c :: r) with
     | [] => None
     | c' :: r' =>
         if Ascii.eqb c' "}" then Some (Obj [], r')
         else match parse_members fuel (c' :: r') with
              | Some (l, r'') => Some (Obj l, r'')
              | None => None
              end
     end).
  cbn [skip_ws]. now rewrite Hw, Hc.
Qed.

Lemma parse_elements_step fuel s :
  parse_elements (S fuel) s =
  match parse_value fuel s with
  | None => None
  | Some (v, r) =>
      match skip_ws r with
      | [] => None
      | c :: r' =>
          if Ascii.eqb c "," then
            match parse_elements fuel r' with
            | Some (vs, r'') => Some (v :: vs, r'')
            | None => None
            end
          else if Ascii.eqb c "]" then Some ([v], r')
          else None
      end
  end.
Proof. reflexivity. Qed.

Lemma parse_members_step fuel r :
  parse_members (S fuel) (quote :: r) =
  match parse_chars r with
  | None => None
  | Some (k, r1) =>
      match skip_ws r1 with
      | [] => None
      | c :: r2 =>
          if negb (Ascii.eqb c ":") then None
          else
            match parse_value fuel r2 with
            | None => None
            | Some (v, r3) =>
                match skip_ws r3 with
                | [] => None
                | c' :: r4 =>
                    if Ascii.eqb c' "," then
                      match parse_members fuel r4 with
                      | Some (ms, r5) => Some ((k, v) :: ms, r5)
                      | None => None
                      end
                    else if Ascii.eqb c' "}" then Some ([(k, v)], r4)
                    else None
                end
            end
      end
  end.
Proof. reflexivity. Qed.

Lemma print_seq_cons {A} (item : A -> list ascii) close x l :
  print_seq item close (x :: l) =
  item x ++ match l with [] => [close] | _ :: _ => "," :: print_seq item close l end.
Proof. reflexivity. Qed.

Lemma parse_print_fuel fuel :
  (forall v rest, (size v < fuel)%nat -> delimited rest = true ->
     parse_value fuel (print v ++ rest) = Some (v, rest))
  /\ (forall x l rest, (sizes (x :: l) < fuel)%nat ->
        parse_elements fuel (print_seq print "]" (x :: l) ++ rest)
        = Some (x :: l, rest))
  /\ (forall m l rest, (member_sizes (m :: l) < fuel)%nat ->
        parse_members fuel (print_seq print_member "}" (m :: l) ++ rest)
        = Some (m :: l, rest)).
Proof.
  induction fuel as [|fuel (IHv & IHe & IHm)].
  { repeat split; intros; lia. }
  split; [|split].
  - intros v rest Hs Hd.
    destruct v as [|[]|n|s|l|l]; try reflexivity.
    + destruct (print_number_head n rest) as (c & r & Heq & Hc).
      cbn [print]. rewrite Heq, (parse_value_number _ _ _ Hc), <- Heq.
      now rewrite parse_number_print.
    + cbn [print print_string app]. rewrite parse_value_string.
      rewrite <- app_assoc. cbn [app]. now rewrite parse_chars_escape.
    + destruct l as [|x l]; [reflexivity|].
      change (print (Arr (x :: l))) with ("[" :: print_seq print "]" (x :: l)).
      cbn [app].
      assert (Hx : exists c r, print_seq print "]" (x :: l) ++ rest = c :: r
                     /\ starter c = true).
      { rewrite print_seq_cons, <- app_assoc. apply print_head. }
      destruct Hx as (c & r & Heq & Hc).
      rewrite Heq, parse_value_array, <- Heq, IHe; [reflexivity| |
        now apply starter_not_ws | now apply starter_not_close].
      cbn [size] in Hs. unfold sizes. lia.
    + destruct l as [|m l]; [reflexivity|].
      change (print (Obj (m :: l))) with ("{" :: print_seq print_member "}" (m :: l)).
      cbn [app].
      assert (Hx : exists r, print_seq print_member "}" (m :: l) ++ rest = quote :: r).
      { destruct m as [k x]. rewrite print_seq_cons.
        cbn [print_member print_string app]. eexists. reflexivity. }
      destruct Hx as (r & Heq).
      rewrite Heq, parse_value_object by reflexivity.
      rewrite <- Heq, IHm; [reflexivity|].
      cbn [size] in Hs. unfold member_sizes. lia.
  - intros x l rest Hs.
    rewrite parse_elements_step, print_seq_cons, <- app_assoc.
    assert (Hx : (size x < fuel)%nat) by (unfold sizes in Hs; simpl in Hs; lia).
    rewrite IHv by (assumption || now destruct l).
    destruct l as [|y l]; [reflexivity|].
    cbn [app skip_ws]. 
    change (is_ws ",") with false. change (Ascii.eqb "," ",") with true.
    cbv iota. rewrite IHe; [reflexivity|].
    unfold sizes in *. simpl in *. lia.
  - intros [k x] l rest Hs.
    rewrite print_seq_cons. cbn [print_member print_string app].
    rewrite parse_members_step, <- !app_assoc.
    cbn [app]. rewrite parse_chars_escape.
    cbn [skip_ws]. change (is_ws ":") with false.
    change (Ascii.eqb ":" ":") with true. cbn [negb]. cbv iota.
    assert (Hx : (size x < fuel)%nat) by (unfold member_sizes in Hs; simpl in Hs; lia).
    rewrite IHv by (assumption || now destruct l).
    destruct l as [|y l]; [reflexivity|].
    cbn [app skip_ws].
    change (is_ws ",") with false. change (Ascii.eqb "," ",") with true.
    cbv iota. rewrite IHm; [reflexivity|].
    unfold member_sizes in *. simpl in *. lia.
Qed.

Lemma print_seq_length {A} (item : A -> list ascii) (weight : A -> nat) close l :
  Forall (fun x => (weight x <= length (item x))%nat) l ->
  (list_sum (map (fun x => S (weight x)) l) <= length (print_seq item close l))%nat.
Proof.
  unfold list_sum.
  induction 1 as [|x l Hx Hl IH]; [simpl; lia|].
  rewrite print_seq_cons, length_app. cbn [map fold_right].
  destruct l as [|y l]; [simpl; lia|].
  cbn [length]. lia.
Qed.

Lemma size_le_length_fuel n :
  forall v, (size v <= n)%nat -> (size v <= length (print v))%nat.
Proof.
  induction n as [|n IH]; intros v Hn.
  { pose proof (size_pos v). lia. }
  destruct v as [|[]|k|s|l|l]; try (simpl; lia).
  - cbn [size print length].
    destruct (print_number_head k []) as (c & r & Heq & _).
    rewrite app_nil_r in Heq. rewrite Heq. simpl. lia.
  - cbn [size print length] in *.
    apply le_n_S, (print_seq_length print size).
    apply Forall_forall. intros x Hx. apply IH.
    assert (S (size x) <= list_sum (map (fun x => S (size x)) l))%nat; [|lia].
    clear -Hx. induction l as [|y l IHl]; [inversion Hx|].
    apply elem_of_cons in Hx as [->|Hx]; simpl; [lia|].
    specialize (IHl Hx). lia.
  - cbn [size print length] in *.
    apply le_n_S.
    apply (print_seq_length print_member
             (fun m : string * value => match m with (_, x) => size x end) "}" l).
    apply Forall_forall. intros [k x] Hx. cbn [print_member].
    rewrite length_app. cbn [length]. 
    assert (size x <= n)%nat.
    { assert (S (size x) <= list_sum (map (fun m : string * value => S (let (_, x0) := m in size x0)) l))%nat; [|lia].
      clear -Hx. induction l as [|[k' y] l IHl]; [inversion Hx|].
      apply elem_of_cons in Hx as [Heq|Hx]; simpl.
      - injection Heq as <- <-. lia.
      - specialize (IHl Hx). lia. }
    specialize (IH x H). lia.
Qed.

Lemma parse_print v : parse (print v) = Some v.
Proof.
  unfold parse.
  destruct (parse_print_fuel (S (length (print v)))) as (Hv & _).
  rewrite <- (app_nil_r (print v)) at 2.
  rewrite Hv; [reflexivity| |reflexivity].
  pose proof (size_le_length_fuel _ v (le_n _)). lia.
Qed.

Lemma parse_text_stringify v : parse_text (stringify v) = Some v.
Proof.
  unfold parse_text, stringify.
  rewrite list_ascii_of_string_of_list_ascii. apply parse_print.
Qed.

Lemma parse_text_empty : parse_text EmptyString = None.
Proof. reflexivity. Qed.

End JsonFacts.

(** ** The two record types *)

Module CodecFacts.
Import Json Codec JsonFacts.
Local Open Scope Z_scope.

Lemma Z_of_num_of_Z z : Z_of_num (num_of_Z z) = Some z.
Proof.
  unfold Z_of_num, num_of_Z. cbn [fraction negative integral all_zero].
  f_equal. destruct (Z.ltb_spec z 0); rewrite N2Z.inj_abs_N; lia.
Qed.

Lemma session_of_to_json s : session_of_json (session_to_json s) = Some s.
Proof.
  destruct s as [c t [w|]]; unfold session_of_json, session_to_json, get_int,
    get_optional; cbn [optional app get String.eqb Ascii.eqb Bool.eqb
                       UseSession.connected UseSession.timestamp
                       UseSession.walletAddress];
    rewrite Z_of_num_of_Z; reflexivity.
Qed.

Lemma cycle_of_to_string c : cycle_of_string (cycle_to_string c) = Some c.
Proof. now destruct c. Qed.

Lemma status_of_to_string s : status_of_string (status_to_string s) = Some s.
Proof. now destruct s. Qed.

Lemma subscription_of_to_json sub :
  subscription_of_json (subscription_to_json sub) = Some sub.
Proof.
  destruct sub as [i p w m a c sd nb st [tx|]];
    unfold subscription_of_json, subscription_to_json, get_int, get_string,
      get_optional;
    cbn [optional app get String.eqb Ascii.eqb Bool.eqb
         SubscriptionLib.id SubscriptionLib.planId SubscriptionLib.walletAddress
         SubscriptionLib.merchantAddress SubscriptionLib.amount
         SubscriptionLib.billingCycle SubscriptionLib.startDate
         SubscriptionLib.nextBillingDate SubscriptionLib.status
         SubscriptionLib.lastPaymentTx mbind option_bind];
    rewrite !Z_of_num_of_Z, cycle_of_to_string, status_of_to_string;
    reflexivity.
Qed.

Lemma ledger_of_to_json l : ledger_of_json (ledger_to_json l) = Some l.
Proof.
  unfold ledger_of_json, ledger_to_json.
  induction l as [|sub l IH]; [reflexivity|].
  cbn [map mapM]. rewrite subscription_of_to_json. cbn [mbind option_bind].
  rewrite IH. reflexivity.
Qed.

Lemma parse_stringify_session s : parse_session (stringify_session s) = Some s.
Proof.
  unfold parse_session, stringify_session.
  rewrite parse_text_stringify. apply session_of_to_json.
Qed.

Lemma parse_stringify_ledger l : parse_ledger (stringify_ledger l) = Some l.
Proof.
  unfold parse_ledger, stringify_ledger.
  rewrite parse_text_stringify. apply ledger_of_to_json.
Qed.

#[export] Instance JSON_SessionData : JSON UseSession.SessionData := {|
  JSON_stringify := stringify_session;
  JSON_parse := parse_session;
  JSON_parse_stringify := parse_stringify_session;
  JSON_parse_empty := eq_refl
|}.

#[export] Instance JSON_ledger : JSON (list SubscriptionLib.Subscription) := {|
  JSON_stringify := stringify_ledger;
  JSON_parse := parse_ledger;
  JSON_parse_stringify := parse_stringify_ledger;
  JSON_parse_empty := eq_refl
|}.

End CodecFacts.

(* ================================================================== *)
(** * The ledger in storage                                            *)
(* ================================================================== *)

Module LedgerFacts.
Import SubscriptionLib.
Local Open Scope Z_scope.

Lemma JSON_stringify_nonempty {T} `{JSON T} (v : T) : JSON_stringify v <> EmptyString.
Proof.
  intros Heq. pose proof (JSON_parse_stringify v) as Hp.
  rewrite Heq, JSON_parse_empty in Hp. discriminate.
Qed.

Lemma truthy_stringify {T} `{JSON T} (v : T) :
  truthy (Some (JSON_stringify v)) = true.
Proof.
  unfold truthy. apply negb_true_iff, String.eqb_neq, JSON_stringify_nonempty.
Qed.

Section Ledger.
Variable zone : ESDate.Zone.
Context `{JSON (list Subscription)}.

Lemma loadSubscriptions_server : loadSubscriptions None = [].
Proof. reflexivity. Qed.

(** What was saved is what is loaded. *)
Lemma loadSubscriptions_saveSubscriptions l ls :
  loadSubscriptions (saveSubscriptions l (Some ls)) = l.
Proof.
  unfold loadSubscriptions, saveSubscriptions, getItem, setItem.
  rewrite lookup_insert_eq, truthy_stringify, JSON_parse_stringify.
  reflexivity.
Qed.

Lemma findIndex_Some {A} (P : A -> Prop) `{forall x, Decision (P x)} l i :
  findIndex P l = Some i <-> exists x, list_find P l = Some (i, x).
Proof.
  unfold findIndex. destruct (list_find P l) as [[j x]|]; cbn; split.
  - intros [= ->]. eauto.
  - intros (y & [= -> _]). reflexivity.
  - discriminate.
  - intros (y & [=]).
Qed.

Lemma list_alter_insert {A} (f : A -> A) (l : list A) i x :
  l !! i = Some x -> alter f i l = <[i := f x]> l.
Proof.
  revert i. induction l as [|y l IH]; intros [|i] Hi; try discriminate.
  - cbn in Hi. now injection Hi as ->.
  - cbn. f_equal. now apply IH.
Qed.

Lemma findIndex_None {A} (P : A -> Prop) `{forall x, Decision (P x)} l :
  findIndex P l = None <-> Forall (fun x => ~ P x) l.
Proof.
  unfold findIndex. split.
  - intros Hn. destruct (list_find P l) eqn:Hf; [discriminate|].
    now apply (list_find_None P l) in Hf.
  - intros Hall. apply (list_find_None P l) in Hall. now rewrite Hall.
Qed.

(** The three functions on a ledger that is in a browser. *)
Lemma createSubscription_ledger now rnd p w m a c tx ls :
  loadSubscriptions (snd (createSubscription zone now rnd p w m a c tx (Some ls)))
  = loadSubscriptions (Some ls)
    ++ [fst (createSubscription zone now rnd p w m a c tx (Some ls))].
Proof.
  unfold createSubscription. cbn [fst snd].
  apply loadSubscriptions_saveSubscriptions.
Qed.

Lemma cancelSubscription_found subscriptionId ls i old :
  list_find (fun sub => id sub = subscriptionId) (loadSubscriptions (Some ls))
    = Some (i, old) ->
  fst (cancelSubscription subscriptionId (Some ls)) = true
  /\ loadSubscriptions (snd (cancelSubscription subscriptionId (Some ls)))
     = <[i := set_status cancelled old]> (loadSubscriptions (Some ls)).
Proof.
  intros Hf. unfold cancelSubscription, findIndex. rewrite Hf.
  cbn [fmap option_fmap option_map fst snd].
  split; [reflexivity|].
  rewrite loadSubscriptions_saveSubscriptions.
  apply list_find_Some in Hf as (Hi & _).
  now apply list_alter_insert.
Qed.

Lemma cancelSubscription_not_found subscriptionId window :
  list_find (fun sub => id sub = subscriptionId) (loadSubscriptions window)
    = None ->
  cancelSubscription subscriptionId window = (false, window).
Proof.
  intros Hf. unfold cancelSubscription, findIndex. now rewrite Hf.
Qed.

Lemma recordPayment_found now subscriptionId tx ls i old :
  list_find (fun sub => id sub = subscriptionId) (loadSubscriptions (Some ls))
    = Some (i, old) ->
  let new := set_payment tx (calculateNextBillingDate zone now (billingCycle old)) old in
  fst (recordPayment zone now subscriptionId tx (Some ls)) = Some new
  /\ loadSubscriptions (snd (recordPayment zone now subscriptionId tx (Some ls)))
     = <[i := new]> (loadSubscriptions (Some ls)).
Proof.
  intros Hf new. unfold recordPayment, findIndex. rewrite Hf.
  cbn [fmap option_fmap option_map fst snd].
  apply list_find_Some in Hf as (Hi & _). rewrite Hi. cbn [fst snd].
  split; [reflexivity|]. apply loadSubscriptions_saveSubscriptions.
Qed.

Lemma recordPayment_not_found now subscriptionId tx window :
  list_find (fun sub => id sub = subscriptionId) (loadSubscriptions window)
    = None ->
  recordPayment zone now subscriptionId tx window = (None, window).
Proof.
  intros Hf. unfold recordPayment, findIndex. now rewrite Hf.
Qed.

(** ** One step of a history *)

(** A step keeps every record in its place and changes its status, if at
    all, to [cancelled]. *)
Lemma step_status window op i s :
  status_at window i = Some s ->
  exists s', status_at (step zone window op) i = Some s'
             /\ (s' = s \/ s' = cancelled).
Proof.
  unfold status_at. intros Hs.
  destruct window as [ls|]; [|discriminate].
  destruct (loadSubscriptions (Some ls) !! i) as [r|] eqn:Hr; [|discriminate].
  injection Hs as <-.
  destruct op as [now rnd p w m a c tx | sid | now sid tx]; cbn [step].
  - rewrite createSubscription_ledger, lookup_app_l, Hr by eauto using lookup_lt_Some.
    eauto.
  - destruct (list_find (fun sub => id sub = sid) (loadSubscriptions (Some ls)))
      as [[j old]|] eqn:Hf.
    + destruct (cancelSubscription_found _ _ _ _ Hf) as [_ ->].
      pose proof (proj1 (list_find_Some _ _ _ _) Hf) as (Hj & _).
      destruct (decide (j = i)) as [-> | Hne].
      * rewrite list_lookup_insert_eq by eauto using lookup_lt_Some.
        eexists. split; [reflexivity|]. now right.
      * rewrite list_lookup_insert_ne, Hr by assumption. eauto.
    + rewrite cancelSubscription_not_found by assumption. cbn [snd].
      rewrite Hr. eauto.
  - destruct (list_find (fun sub => id sub = sid) (loadSubscriptions (Some ls)))
      as [[j old]|] eqn:Hf.
    + destruct (recordPayment_found now _ tx _ _ _ Hf) as [_ ->].
      pose proof (proj1 (list_find_Some _ _ _ _) Hf) as (Hj & _).
      destruct (decide (j = i)) as [-> | Hne].
      * rewrite list_lookup_insert_eq by eauto using lookup_lt_Some.
        eexists. split; [reflexivity|]. left. cbn.
        rewrite Hr in Hj. now injection Hj as ->.
      * rewrite list_lookup_insert_ne, Hr by assumption. eauto.
    + rewrite recordPayment_not_found by assumption. cbn [snd].
      rewrite Hr. eauto.
Qed.

Lemma run_status ops window i s :
  status_at window i = Some s ->
  exists s', status_at (run zone ops window) i = Some s'
             /\ (s' = s \/ s' = cancelled).
Proof.
  revert window s. induction ops as [|op ops IH]; intros window s Hs; cbn.
  - eauto.
  - destruct (step_status window op i s Hs) as (s1 & H1 & Hc1).
    destruct (IH _ _ H1) as (s2 & H2 & Hc2).
    exists s2. split; [assumption|].
    destruct Hc2 as [-> | ->]; auto.
Qed.

(** No function stores [expired]. *)
Lemma step_no_expired window op :
  Forall (fun r => status r <> expired) (loadSubscriptions window) ->
  Forall (fun r => status r <> expired) (loadSubscriptions (step zone window op)).
Proof.
  intros Hall. destruct window as [ls|].
  2:{ destruct op; cbn; unfold findIndex; cbn; constructor. }
  destruct op as [now rnd p w m a c tx | sid | now sid tx]; cbn [step].
  - rewrite createSubscription_ledger. apply Forall_app. split; [assumption|].
    repeat constructor. discriminate.
  - destruct (list_find (fun sub => id sub = sid) (loadSubscriptions (Some ls)))
      as [[j old]|] eqn:Hf.
    + destruct (cancelSubscription_found _ _ _ _ Hf) as [_ ->].
      apply Forall_insert; [assumption | discriminate].
    + now rewrite cancelSubscription_not_found.
  - destruct (list_find (fun sub => id sub = sid) (loadSubscriptions (Some ls)))
      as [[j old]|] eqn:Hf.
    + destruct (recordPayment_found now _ tx _ _ _ Hf) as [_ ->].
      apply Forall_insert; [assumption|]. cbn.
      apply list_find_Some in Hf as (Hj & _).
      eapply Forall_lookup_1 in Hall; eauto.
    + now rewrite recordPayment_not_found.
Qed.

Lemma run_no_expired ops window :
  Forall (fun r => status r <> expired) (loadSubscriptions window) ->
  Forall (fun r => status r <> expired) (loadSubscriptions (run zone ops window)).
Proof.
  revert window. induction ops as [|op ops IH]; intros window Hall; cbn.
  - assumption.
  - apply IH, step_no_expired, Hall.
Qed.
End Ledger.
End LedgerFacts.

(* ================================================================== *)
(** * Billing dates                                                    *)
(* ================================================================== *)

Module BillingFacts.
Import ESDate ESDateFacts SubscriptionLib Observations LedgerFacts.
Local Open Scope Z_scope.

(** The next billing date: the local time of [d] moved by the days of the
    cycle, read in the zone as a time value. *)
Lemma calculateNextBillingDate_local zone d cycle :
  calculateNextBillingDate zone d cycle
  = UTC zone (LocalTime zone d + cycle_days zone d cycle * msPerDay).
Proof.
  destruct cycle; cbn [calculateNextBillingDate cycle_days].
  - apply setDate_plus.
  - apply setMonth_next.
  - apply setFullYear_next.
Qed.

(** In time values: the days of the cycle, corrected by the change of the
    offset between [d] and the date that is reached. *)
Lemma calculateNextBillingDate_offset zone d cycle :
  let local := LocalTime zone d + cycle_days zone d cycle * msPerDay in
  calculateNextBillingDate zone d cycle
  = d + cycle_days zone d cycle * msPerDay + (zone d true - zone local false).
Proof.
  cbv zeta. rewrite calculateNextBillingDate_local. apply UTC_LocalTime_plus.
Qed.

Lemma cycle_days_range zone d cycle : 7 <= cycle_days zone d cycle <= 366.
Proof.
  destruct cycle; cbn [cycle_days].
  - lia.
  - pose proof (DaysInMonth_bounds (getFullYear zone d) (getMonth zone d)
                  (MonthFromTime_bounds _)). lia.
  - pose proof (yearStep_cases (getFullYear zone d) (getMonth zone d)
                  (MonthFromTime_bounds _)). lia.
Qed.


(** [TimeClip] leaves it as it is unless the date is within a year of the
    end of the range of [Date]. *)
Lemma calculateNextBillingDate_TimeClip zone d cycle :
  offsets_within zone msPerDay ->
  Z.abs d + 367 * msPerDay <= maxTime ->
  TimeClip (calculateNextBillingDate zone d cycle)
  = Some (calculateNextBillingDate zone d cycle).
Proof.
  intros Hz Hd. unfold TimeClip. rewrite calculateNextBillingDate_offset.
  pose proof (cycle_days_range zone d cycle) as Hc.
  pose proof (Hz d (LocalTime zone d + cycle_days zone d cycle * msPerDay)
                true false) as Ho.
  match goal with |- context [Z.leb ?a ?b] => destruct (Z.leb_spec a b) end;
    [reflexivity|].
  unfold msPerDay in *. lia.
Qed.

(** ** In a zone of fixed offset *)

Lemma calculateNextBillingDate_fixedOffset tza d cycle :
  calculateNextBillingDate (fixedOffset tza) d cycle
  = d + cycle_days (fixedOffset tza) d cycle * msPerDay.
Proof.
  rewrite calculateNextBillingDate_local. apply UTC_LocalTime_fixedOffset.
Qed.

Lemma calculateNextBillingDate_weekly tza d :
  calculateNextBillingDate (fixedOffset tza) d weekly = d + 7 * msPerDay.
Proof. apply calculateNextBillingDate_fixedOffset. Qed.

Lemma calculateNextBillingDate_monthly tza d :
  calculateNextBillingDate (fixedOffset tza) d monthly
  = d + DaysInMonth (getFullYear (fixedOffset tza) d)
                    (getMonth (fixedOffset tza) d) * msPerDay.
Proof. apply calculateNextBillingDate_fixedOffset. Qed.

Lemma calculateNextBillingDate_yearly tza d :
  calculateNextBillingDate (fixedOffset tza) d yearly
  = d + yearStep (getFullYear (fixedOffset tza) d)
                 (getMonth (fixedOffset tza) d) * msPerDay.
Proof. apply calculateNextBillingDate_fixedOffset. Qed.

(** ** The calendar fields that the local time shows *)

(** A month later: the same day of the next month, or, when that month is
    too short, as many days into the month after it as the day exceeds its
    length. *)
Lemma monthly_localFields t :
  let '(y, m, day) := localFields t in
  let '(y1, m1) := nextMonth y m in
  localFields (t + DaysInMonth y m * msPerDay) =
  if day <=? DaysInMonth y1 m1 then (y1, m1, day)
  else let '(y2, m2) := nextMonth y1 m1 in (y2, m2, day - DaysInMonth y1 m1).
Proof.
  unfold localFields at 1.
  pose proof (MonthFromTime_bounds t) as Hm.
  pose proof (DateFromTime_bounds t) as Hd.
  pose proof (TimeWithinDay_bounds t) as Ht.
  pose proof (local_split t) as Hsplit.
  set (y := YearFromTime t) in *. set (m := MonthFromTime t) in *.
  set (day := DateFromTime t) in *.
  pose proof (DaysInMonth_bounds y m Hm) as Hdim.
  clearbody y m day.
  replace (t + DaysInMonth y m * msPerDay)
    with (MakeDate (MakeDay y (m + 1) day) (TimeWithinDay t))
    by (now rewrite MakeDay_next_month, MakeDate_shift, Hsplit).
  clear Hsplit. unfold nextMonth at 1.
  destruct (Z.eqb_spec m 11) as [Hm11 | Hm11].
  - (* December: January of the next year has 31 days *)
    rewrite Hm11. change (11 + 1) with 12. rewrite MakeDay_month_12.
    assert (Hj : DaysInMonth (y + 1) 0 = 31) by reflexivity.
    assert (Hdec : DaysInMonth y 11 = 31).
    { unfold DaysInMonth. change (11 + 1) with 12. cbn [monthStart]. lia. }
    rewrite Hm11, Hdec in Hd. rewrite Hj.
    destruct (Z.leb_spec day 31); [|lia].
    apply localFields_MakeDay; lia.
  - pose proof (DaysInMonth_bounds y (m + 1) ltac:(lia)) as Hdim1.
    destruct (Z.leb_spec day (DaysInMonth y (m + 1))) as [Hfit | Hover].
    + apply localFields_MakeDay; lia.
    + (* the day does not exist in month m + 1 *)
      assert (Hm10 : m + 1 <> 11).
      { intros Heq. revert Hover. rewrite Heq. unfold DaysInMonth.
        change (11 + 1) with 12. cbn [monthStart]. lia. }
      unfold nextMonth. destruct (Z.eqb_spec (m + 1) 11) as [|_]; [contradiction|].
      replace day with ((day - DaysInMonth y (m + 1)) + DaysInMonth y (m + 1)) at 1 by lia.
      rewrite MakeDay_date, <- MakeDay_next_month by lia.
      pose proof (DaysInMonth_bounds y (m + 1 + 1) ltac:(lia)).
      apply localFields_MakeDay; lia.
Qed.

(** A year later: the same month and day of the next year, and 1 March
    for 29 February. *)
Lemma yearly_localFields t :
  let '(y, m, day) := localFields t in
  localFields (t + yearStep y m * msPerDay) =
  if day <=? DaysInMonth (y + 1) m then (y + 1, m, day) else (y + 1, 2, 1).
Proof.
  unfold localFields at 1.
  pose proof (MonthFromTime_bounds t) as Hm.
  pose proof (DateFromTime_bounds t) as Hd.
  pose proof (TimeWithinDay_bounds t) as Ht.
  pose proof (local_split t) as Hsplit.
  set (y := YearFromTime t) in *. set (m := MonthFromTime t) in *.
  set (day := DateFromTime t) in *.
  clearbody y m day.
  replace (t + yearStep y m * msPerDay)
    with (MakeDate (MakeDay (y + 1) m day) (TimeWithinDay t))
    by (now rewrite MakeDay_next_year, MakeDate_shift, Hsplit).
  clear Hsplit.
  destruct (Z.leb_spec day (DaysInMonth (y + 1) m)) as [Hfit | Hover].
  - apply localFields_MakeDay; lia.
  - (* only 29 February can be missing from the next year *)
    assert (Hfeb : m = 1 /\ day = 29 /\ DaysInMonth (y + 1) 1 = 28).
    { unfold DaysInMonth in *.
      destruct (leapOfYear_cases y) as [H0 | H0], (leapOfYear_cases (y + 1)) as [H1 | H1];
        rewrite H0, H1 in *;
        destruct (twelve_months m Hm) as
          [-> | [-> | [-> | [-> | [-> | [-> | [-> | [-> | [-> | [-> | [-> | ->]]]]]]]]]]];
        months; lia. }
    destruct Hfeb as (-> & -> & Hlen).
    replace 29 with (1 + DaysInMonth (y + 1) 1) at 1 by lia.
    rewrite MakeDay_date, <- MakeDay_next_month by lia.
    change (1 + 1) with 2.
    apply localFields_MakeDay; [lia | | lia].
    pose proof (DaysInMonth_bounds (y + 1) 2 ltac:(lia)). lia.
Qed.

(** [Math.ceil] of a quotient, in integer arithmetic. *)
Lemma Math_ceil_div_ceiling a b : 0 < b -> Math_ceil_div a b = ceiling a b.
Proof.
  intros Hb. destruct b as [|p|p]; try lia.
  unfold Math_ceil_div, ceiling, Qceiling, Qfloor, Qdiv, Qinv, Qmult, Qopp, inject_Z.
  cbn [Qnum Qden]. rewrite Z.mul_1_r, Pos.mul_1_l. reflexivity.
Qed.

Lemma ceiling_spec a b :
  0 < b -> (ceiling a b - 1) * b < a <= ceiling a b * b.
Proof. unfold ceiling. intros Hb. Z.div_mod_to_equations. nia. Qed.

(** [isPaymentDue]: active, and the billing date reached. *)
Lemma isPaymentDue_true now subscription :
  isPaymentDue now subscription = true
  <-> status subscription = active /\ nextBillingDate subscription <= now.
Proof.
  unfold isPaymentDue. case_bool_decide as Hs; cbn.
  - rewrite Z.geb_leb, Z.leb_le. tauto.
  - split; [discriminate | tauto].
Qed.

Lemma isPaymentDue_false now subscription :
  now < nextBillingDate subscription -> isPaymentDue now subscription = false.
Proof.
  intros Hlt. apply not_true_is_false. rewrite isPaymentDue_true. lia.
Qed.

(** ** Sample dates *)

(** 29 February 2024, a year later: 1 March 2025. *)
Example yearly_from_feb_29 :
  calculateNextBillingDate (fixedOffset 0) (utcMidnight 2024 1 29) yearly
  = utcMidnight 2025 2 1.
Proof. vm_compute. reflexivity. Qed.

(** 15 December 2024, a month later: 15 January 2025. *)
Example monthly_from_dec_15 :
  calculateNextBillingDate (fixedOffset 0) (utcMidnight 2024 11 15) monthly
  = utcMidnight 2025 0 15.
Proof. vm_compute. reflexivity. Qed.

(** 31 December 2024, 20:00 UTC, is 1 January 2025 in a zone five and a
    half hours ahead; a week later it is 8 January there. *)
Example weekly_in_zone_ahead :
  let zone := fixedOffset 19800000 in
  let d := utcMidnight 2024 11 31 + 20 * 3600000 in
  fields zone d = (2025, 0, 1)
  /\ fields zone (calculateNextBillingDate zone d weekly) = (2025, 0, 8).
Proof. vm_compute. split; reflexivity. Qed.

(** 1 March 2025, 02:00 UTC, is 28 February in a zone five hours behind; a
    month later it is 28 March there. *)
Example monthly_in_zone_behind :
  let zone := fixedOffset (-18000000) in
  let d := utcMidnight 2025 2 1 + 2 * 3600000 in
  fields zone d = (2025, 1, 28)
  /\ fields zone (calculateNextBillingDate zone d monthly) = (2025, 2, 28).
Proof. vm_compute. split; reflexivity. Qed.

(** In New York, from noon of 5 March 2025 to noon of 12 March: the clocks
    were moved forward on 9 March, and the week has an hour less than seven
    times 24 hours. *)
Example weekly_across_spring_forward :
  let zone := Demo.new_york_2025 in
  let d := utcMidnight 2025 2 5 + 17 * Demo.hour in
  let next := calculateNextBillingDate zone d weekly in
  d = 1741194000000
  /\ next = d + 7 * msPerDay - Demo.hour
  /\ (fields zone d, TimeWithinDay (LocalTime zone d)) = (2025, 2, 5, 12 * Demo.hour)
  /\ (fields zone next, TimeWithinDay (LocalTime zone next))
     = (2025, 2, 12, 12 * Demo.hour).
Proof. vm_compute. repeat split. Qed.

(** There, from noon of 29 October 2025 to noon of 5 November: the clocks
    were moved back on 2 November, the week has an hour more, and it rounds
    up to eight days. *)
Example weekly_across_fall_back :
  let zone := Demo.new_york_2025 in
  let d := utcMidnight 2025 9 29 + 16 * Demo.hour in
  let next := calculateNextBillingDate zone d weekly in
  next = d + 7 * msPerDay + Demo.hour
  /\ (fields zone next, TimeWithinDay (LocalTime zone next))
     = (2025, 10, 5, 12 * Demo.hour)
  /\ Math_ceil_div (next - d) (24 * 60 * 60 * 1000) = 8.
Proof. vm_compute. repeat split. Qed.


End BillingFacts.

(* ================================================================== *)
(** * The claims of the specification                                  *)
(* ================================================================== *)

Import ESDate ESDateFacts SubscriptionLib LedgerFacts BillingFacts CodecFacts.
Local Open Scope Z_scope.

(** ** C1: the status of a record over a history *)

(** C1, as stated, fails: in a ledger that holds an expired record,
    [cancelSubscription] on its id stores it as cancelled, a move out of
    [expired]. *)
Lemma cancel_moves_expired_to_cancelled :
  let window := Some (Demo.storage [Demo.record "sub_1" expired]) in
  status_at window 0 = Some expired
  /\ status_at (run (fixedOffset 0) [Cancel "sub_1"] window) 0 = Some cancelled
  /\ ~ status_claim_as_specified (fixedOffset 0) window [Cancel "sub_1"].
Proof.
  cbv zeta.
  assert (Hbefore : status_at (Some (Demo.storage [Demo.record "sub_1" expired])) 0
                    = Some expired) by (vm_compute; reflexivity).
  assert (Hafter : status_at (run (fixedOffset 0) [Cancel "sub_1"]
                      (Some (Demo.storage [Demo.record "sub_1" expired]))) 0
                   = Some cancelled) by (vm_compute; reflexivity).
  split; [exact Hbefore|]. split; [exact Hafter|].
  intros Hclaim.
  destruct (Hclaim 0%nat expired cancelled Hbefore Hafter) as [? | [? _]];
    discriminate.
Qed.

(** C1 (amended): over every history of [createSubscription],
    [cancelSubscription] and [recordPayment] calls, every record of the
    ledger stays at its position and its status is either what it was or
    [cancelled]: nothing leaves [cancelled], nothing becomes [active] or
    [expired], but an [expired] record can become [cancelled].  In a ledger
    with no expired record none appears, and there the status moves only as
    specified (from [active] to [cancelled]). *)
Theorem status_history `{JSON (list Subscription)} (zone : Zone) (ops : list Op)
    (window : Window) :
  (forall i s, status_at window i = Some s ->
     exists s', status_at (run zone ops window) i = Some s'
                /\ (s' = s \/ s' = cancelled))
  /\ (Forall (fun r => status r <> expired) (loadSubscriptions window) ->
      Forall (fun r => status r <> expired) (loadSubscriptions (run zone ops window))
      /\ status_claim_as_specified zone window ops).
Proof.
  split.
  - intros i s. apply run_status.
  - intros Hall. split; [now apply run_no_expired|].
    intros i s s' Hs Hs'.
    destruct (run_status zone ops window i s Hs) as (s1 & H1 & Hc).
    rewrite Hs' in H1. injection H1 as <-.
    destruct Hc as [-> | ->]; [now left|].
    unfold status_at in Hs.
    destruct (loadSubscriptions window !! i) as [r|] eqn:Hr; [|discriminate].
    injection Hs as <-.
    eapply Forall_lookup_1 in Hall; [|exact Hr].
    destruct (status r); [right | left | contradiction]; auto.
Qed.

(** ** C2: validity of a session *)

(** C2: for a connected session, [isValidSession] is true exactly when
    [now - timestamp < expiryMs]; at [now - timestamp = expiryMs] it is
    false; for an absent record and for one that is not connected it is
    false. *)
Theorem isValidSession_spec (expiryMs now t : Z) (w : option string) :
  let session c := {| UseSession.connected := c; UseSession.timestamp := t;
                      UseSession.walletAddress := w |} in
  (UseSession.isValidSession expiryMs now (Some (session true)) = true
     <-> now - t < expiryMs)
  /\ UseSession.isValidSession expiryMs (t + expiryMs) (Some (session true)) = false
  /\ UseSession.isValidSession expiryMs now None = false
  /\ UseSession.isValidSession expiryMs now (Some (session false)) = false.
Proof.
  cbv zeta. unfold UseSession.isValidSession. cbn.
  repeat split.
  - apply Z.ltb_lt.
  - apply Z.ltb_lt.
  - apply Z.ltb_ge. lia.
Qed.

(** ** C3: recording a payment *)



(** ** C4: cancelling an unknown id *)

(** C4: when no record of the ledger has the id, [cancelSubscription]
    returns [false] and the storage after the call is the storage before
    it. *)
Theorem cancelSubscription_unknown `{JSON (list Subscription)}
    (subscriptionId : string) (ls : Storage) :
  Forall (fun sub => id sub <> subscriptionId) (loadSubscriptions (Some ls)) ->
  cancelSubscription subscriptionId (Some ls) = (false, Some ls).
Proof.
  intros Hall. apply cancelSubscription_not_found.
  now apply (list_find_None (fun sub => id sub = subscriptionId)).
Qed.

(** C4 at a ledger of one record and another id. *)
Lemma cancelSubscription_unknown_witness :
  Forall (fun sub => id sub <> "sub_2")
    (loadSubscriptions (Some (Demo.storage [Demo.record "sub_1" active])))
  /\ cancelSubscription "sub_2" (Some (Demo.storage [Demo.record "sub_1" active]))
     = (false, Some (Demo.storage [Demo.record "sub_1" active])).
Proof.
  assert (Hall : Forall (fun sub => id sub <> "sub_2")
            (loadSubscriptions (Some (Demo.storage [Demo.record "sub_1" active])))).
  { vm_compute. repeat constructor. discriminate. }
  split; [exact Hall|].
  exact (cancelSubscription_unknown "sub_2" _ Hall).
Defined.

(** ** C5: creating a subscription *)



(** ** C6: the billing date of each cycle *)

(** C6, as stated, fails: one month after 31 January 2025 is not a day of
    February, clamped to its end, but 3 March. *)
Lemma monthly_from_jan_31_is_mar_3 :
  let next := calculateNextBillingDate (fixedOffset 0) Demo.jan_31 monthly in
  fields (fixedOffset 0) Demo.jan_31 = (2025, 0, 31)
  /\ next = Demo.mar_3
  /\ fields (fixedOffset 0) next = (2025, 2, 3)
  /\ ~ one_month_later_clamped (fixedOffset 0) Demo.jan_31 next.
Proof. vm_compute. repeat split. discriminate. Qed.

(** C6 (amended): for a date [d] of the range of [Date] whose next
    billing date is within that range too, [calculateNextBillingDate] gives
    the time value at which the local clock shows the time of day of [d] a
    number of calendar days after the local date of [d]: 7 days for a weekly
    cycle; for a monthly cycle the length of the month of [d], which leads
    to the same day of the next month when that month has such a day, and
    otherwise runs over into the month after it by as many days as are
    missing; for a yearly cycle the days to the same month and day of the
    next year, 1 March for 29 February.  As a time value it is [d] plus
    these days of 24 hours, corrected by the change of the zone's offset
    between the two dates: exactly these days when the offset is the same.
    The local date that is reached is the one the result shows, unless a
    change of offset skips that local time. *)
Theorem calculateNextBillingDate_spec (zone : Zone) (d : Z) (cycle : BillingCycle) :
  Z.abs d <= maxTime ->
  Z.abs (calculateNextBillingDate zone d cycle) <= maxTime ->
  let next := calculateNextBillingDate zone d cycle in
  let y := getFullYear zone d in
  let m := getMonth zone d in
  let day := getDate zone d in
  let days := match cycle with
              | weekly => 7
              | monthly => DaysInMonth y m
              | yearly => yearStep y m
              end in
  let local := LocalTime zone d + days * msPerDay in
  TimeClip d = Some d
  /\ TimeClip next = Some next
  /\ next = UTC zone local
  /\ next = d + days * msPerDay + (zone d true - zone local false)
  /\ (zone local false = zone d true -> next = d + days * msPerDay)
  /\ Day local = Day (LocalTime zone d) + days
  /\ TimeWithinDay local = TimeWithinDay (LocalTime zone d)
  /\ (cycle = monthly ->
        let '(y1, m1) := nextMonth y m in
        let '(y2, m2) := nextMonth y1 m1 in
        localFields local
        = if day <=? DaysInMonth y1 m1 then (y1, m1, day)
          else (y2, m2, day - DaysInMonth y1 m1))
  /\ (cycle = yearly ->
        localFields local
        = if day <=? DaysInMonth (y + 1) m then (y + 1, m, day) else (y + 1, 2, 1))
  /\ (zone next true = zone local false ->
        LocalTime zone next = local /\ fields zone next = localFields local).
Proof.
  intros Hd Hn. cbv zeta.
  change (match cycle with
          | weekly => 7
          | monthly => DaysInMonth (getFullYear zone d) (getMonth zone d)
          | yearly => yearStep (getFullYear zone d) (getMonth zone d)
          end) with (Observations.cycle_days zone d cycle).
  pose proof (calculateNextBillingDate_local zone d cycle) as Hlocal.
  pose proof (calculateNextBillingDate_offset zone d cycle) as Hoffset.
  cbv zeta in Hoffset.
  set (next := calculateNextBillingDate zone d cycle) in *.
  set (days := Observations.cycle_days zone d cycle) in *.
  split; [unfold TimeClip; now rewrite (proj2 (Z.leb_le _ _) Hd)|].
  split; [unfold TimeClip; now rewrite (proj2 (Z.leb_le _ _) Hn)|].
  split; [exact Hlocal|]. split; [exact Hoffset|].
  split; [intros Heq; rewrite Hoffset, Heq; lia|].
  split; [apply Day_shift|]. split; [apply TimeWithinDay_shift|].
  split; [|split].
  - intros ->. subst days. cbn [Observations.cycle_days].
    pose proof (monthly_localFields (LocalTime zone d)) as Hm.
    unfold localFields at 1 in Hm.
    fold (getFullYear zone d) (getMonth zone d) (getDate zone d) in Hm.
    destruct (nextMonth (getFullYear zone d) (getMonth zone d)) as [y1 m1].
    destruct (nextMonth y1 m1) as [y2 m2]. exact Hm.
  - intros ->. subst days. cbn [Observations.cycle_days].
    pose proof (yearly_localFields (LocalTime zone d)) as Hy.
    unfold localFields at 1 in Hy. exact Hy.
  - intros Hz. rewrite Hlocal in Hz.
    assert (Hback : LocalTime zone next
                    = LocalTime zone d + days * msPerDay)
      by (rewrite Hlocal; now apply LocalTime_UTC).
    split; [exact Hback|]. now rewrite fields_localFields, Hback.
Qed.

(** C6 in New York, a week from 5 March 2025 at noon: the local clock
    shows noon of 12 March, an hour less than seven times 24 hours later,
    since the clocks were moved forward on 9 March. *)
Lemma calculateNextBillingDate_spec_witness :
  let zone := Demo.new_york_2025 in
  let d := 1741194000000 in
  let next := calculateNextBillingDate zone d weekly in
  next = d + 7 * msPerDay - Demo.hour
  /\ TimeClip next = Some next
  /\ fields zone next = localFields (LocalTime zone d + 7 * msPerDay)
  /\ fields zone next = (2025, 2, 12).
Proof.
  cbv zeta.
  assert (Hd : Z.abs 1741194000000 <= maxTime) by (vm_compute; discriminate).
  assert (Hn : Z.abs (calculateNextBillingDate Demo.new_york_2025 1741194000000
                        weekly) <= maxTime) by (vm_compute; discriminate).
  destruct (calculateNextBillingDate_spec Demo.new_york_2025 1741194000000 weekly
              Hd Hn)
    as (_ & Hclip & _ & Hnext & _ & _ & _ & _ & _ & Hshown).
  split; [rewrite Hnext; vm_compute; reflexivity|].
  split; [exact Hclip|].
  assert (Hz : Demo.new_york_2025
                 (calculateNextBillingDate Demo.new_york_2025 1741194000000 weekly)
                 true
               = Demo.new_york_2025
                   (LocalTime Demo.new_york_2025 1741194000000 + 7 * msPerDay)
                   false) by (vm_compute; reflexivity).
  destruct (Hshown Hz) as [_ Hfields].
  split; [exact Hfields|]. vm_compute. reflexivity.
Defined.

(** ** C7: days until the next billing *)

(** C7: [getDaysUntilBilling] is [max(0, ceil((nextBillingDate - now) /
    dayMs))], with [dayMs] the milliseconds of 24 hours: 0 when the billing
    date is not after [now], and otherwise the least number of whole days
    that covers the time left. *)
Theorem getDaysUntilBilling_spec (now : Z) (record : Subscription) :
  let days := getDaysUntilBilling now record in
  days = daysUntilDue now record
  /\ (nextBillingDate record <= now -> days = 0)
  /\ (now < nextBillingDate record ->
      (days - 1) * dayMs < nextBillingDate record - now <= days * dayMs).
Proof.
  cbv zeta. unfold getDaysUntilBilling, daysUntilDue.
  change (24 * 60 * 60 * 1000) with dayMs.
  rewrite Math_ceil_div_ceiling by reflexivity.
  pose proof (ceiling_spec (nextBillingDate record - now) dayMs eq_refl) as Hc.
  unfold dayMs in *. repeat split; lia.
Qed.

(** ** C8: loading absent or malformed data *)

(** C8: [loadSession] and [loadSubscriptions] are total.  When nothing is
    stored under the key, and when [JSON.parse] throws on the stored text,
    [loadSession] returns [null] and [loadSubscriptions] the empty list. *)
Theorem load_of_malformed `{JSON UseSession.SessionData} `{JSON (list Subscription)}
    (h : UseSession.Hook) (window : Window) :
  let session_text :=
    UseSession.window h ≫= fun ls => getItem ls UseSession.SESSION_KEY in
  let ledger_text := window ≫= fun ls => getItem ls SUBSCRIPTIONS_KEY in
  (session_text = None -> UseSession.loadSession h = None)
  /\ (forall text, session_text = Some text ->
        JSON_parse (T := UseSession.SessionData) text = None ->
        UseSession.loadSession h = None)
  /\ (ledger_text = None -> loadSubscriptions window = [])
  /\ (forall text, ledger_text = Some text ->
        JSON_parse (T := list Subscription) text = None ->
        loadSubscriptions window = []).
Proof.
  cbv zeta. unfold UseSession.loadSession, loadSubscriptions.
  destruct h as [[ls|] info], window as [ls'|]; cbn [UseSession.window mbind option_bind];
    repeat split; try reflexivity; try discriminate;
    try (intros ->; reflexivity);
    intros text Ht Hp; rewrite Ht; cbv iota beta; rewrite Hp;
    now destruct (truthy _).
Qed.

(** Texts that are not JSON, a text that is JSON of another type, and the
    empty text, in the storage of a browser. *)
Example loadSession_malformed :
  let load text :=
    UseSession.loadSession
      {| UseSession.window := Some {[ UseSession.SESSION_KEY := text ]};
         UseSession.sessionInfo := None |} in
  load "{oops" = None /\ load "[1,2" = None /\ load "undefined" = None
  /\ load EmptyString = None.
Proof. vm_compute. repeat split. Qed.

Example loadSubscriptions_malformed :
  let load text := loadSubscriptions (Some {[ SUBSCRIPTIONS_KEY := text ]}) in
  load "[{" = [] /\ load "not json" = [] /\ load EmptyString = []
  /\ loadSubscriptions (Some ∅) = [] /\ loadSubscriptions None = [].
Proof. vm_compute. repeat split. Qed.

(** ** C9: saving and loading a session *)

(** C9: in a browser, [loadSession] after [saveSession] returns the
    record that was saved: connected, with the wallet address given to
    [saveSession] and the time of the call.  The record goes through the
    storage: [saveSession] leaves its text under the session key;
    [loadSession] returns the record from the storage that [saveSession]
    left, and from any storage that holds this text under the key, whatever
    the [sessionInfo] of the hook; and it returns nothing from a storage
    that has no item under the key, whatever the [sessionInfo]. *)
Theorem saveSession_loadSession `{JSON UseSession.SessionData} (now : Z)
    (smartWalletPubkey : option string) (ls : Storage)
    (info info' : option UseSession.SessionData) :
  let saved :=
    UseSession.saveSession now smartWalletPubkey
      {| UseSession.window := Some ls; UseSession.sessionInfo := info |} in
  let session :=
    {| UseSession.connected := true;
       UseSession.timestamp := now;
       UseSession.walletAddress := smartWalletPubkey |} in
  UseSession.loadSession saved = Some session
  /\ UseSession.window saved
     = Some (setItem ls UseSession.SESSION_KEY (JSON_stringify session))
  /\ UseSession.loadSession
       {| UseSession.window := UseSession.window saved;
          UseSession.sessionInfo := info' |}
     = Some session
  /\ (forall storage,
        getItem storage UseSession.SESSION_KEY = Some (JSON_stringify session) ->
        UseSession.loadSession
          {| UseSession.window := Some storage; UseSession.sessionInfo := info' |}
        = Some session)
  /\ (forall storage,
        getItem storage UseSession.SESSION_KEY = None ->
        UseSession.loadSession
          {| UseSession.window := Some storage; UseSession.sessionInfo := info' |}
        = None).
Proof.
  cbv zeta.
  assert (Hload : forall storage,
            getItem storage UseSession.SESSION_KEY
              = Some (JSON_stringify
                        {| UseSession.connected := true;
                           UseSession.timestamp := now;
                           UseSession.walletAddress := smartWalletPubkey |}) ->
            UseSession.loadSession
              {| UseSession.window := Some storage;
                 UseSession.sessionInfo := info' |}
            = Some {| UseSession.connected := true;
                      UseSession.timestamp := now;
                      UseSession.walletAddress := smartWalletPubkey |}).
  { intros storage Hitem. unfold UseSession.loadSession.
    cbn [UseSession.window]. rewrite Hitem, truthy_stringify.
    cbn [negb]. now rewrite JSON_parse_stringify. }
  split; [|split; [reflexivity|split; [|split; [exact Hload|]]]].
  - unfold UseSession.loadSession, UseSession.saveSession, getItem, setItem.
    cbn [UseSession.window]. rewrite lookup_insert_eq, truthy_stringify.
    cbn [negb]. now rewrite JSON_parse_stringify.
  - apply Hload. unfold UseSession.saveSession, getItem, setItem.
    cbn [UseSession.window]. apply lookup_insert_eq.
  - intros storage Hitem. unfold UseSession.loadSession.
    cbn [UseSession.window]. now rewrite Hitem.
Qed.

Example saveSession_text :
  UseSession.window
    (UseSession.saveSession 1700000000000 (Some "9xQeWvG816bUx9EPjHmaT23yvVM2ZWbrrpZb9PusVFin")
       {| UseSession.window := Some ∅; UseSession.sessionInfo := None |})
  = Some {[ UseSession.SESSION_KEY :=
      "{" +:+ Demo.quoted "connected" +:+ ":true,"
      +:+ Demo.quoted "timestamp" +:+ ":1700000000000,"
      +:+ Demo.quoted "walletAddress" +:+ ":"
      +:+ Demo.quoted "9xQeWvG816bUx9EPjHmaT23yvVM2ZWbrrpZb9PusVFin" +:+ "}" ]}.
Proof. vm_compute. reflexivity. Qed.

(** ** C10: what cancelling leaves alone *)

(** C10: when [i] is the position of the first record [old] with the
    id, [cancelSubscription] returns [true]; the ledger keeps its length and
    every record at another position; the record at [i] is cancelled and
    has every other field of [old]; no other key of the storage changes. *)
Theorem cancelSubscription_frame `{JSON (list Subscription)}
    (subscriptionId : string) (ls : Storage) (i : nat) (old : Subscription) :
  list_find (fun sub => id sub = subscriptionId) (loadSubscriptions (Some ls))
    = Some (i, old) ->
  let ledger := loadSubscriptions (Some ls) in
  let result := cancelSubscription subscriptionId (Some ls) in
  let ledger' := loadSubscriptions (snd result) in
  fst result = true
  /\ length ledger' = length ledger
  /\ (forall j, j <> i -> ledger' !! j = ledger !! j)
  /\ (exists new,
        ledger' !! i = Some new
        /\ status new = cancelled
        /\ (id new, planId new, walletAddress new, merchantAddress new, amount new,
            billingCycle new, startDate new, nextBillingDate new, lastPaymentTx new)
           = (id old, planId old, walletAddress old, merchantAddress old, amount old,
              billingCycle old, startDate old, nextBillingDate old, lastPaymentTx old))
  /\ (forall key, key <> SUBSCRIPTIONS_KEY ->
        (snd result ≫= fun ls' => getItem ls' key) = getItem ls key).
Proof.
  intros Hf. cbv zeta.
  destruct (cancelSubscription_found _ _ _ _ Hf) as [Hr Hl].
  pose proof (proj1 (list_find_Some _ _ _ _) Hf) as (Hi & _).
  split; [exact Hr|]. rewrite Hl.
  split; [apply length_insert|].
  split; [intros j Hj; now apply list_lookup_insert_ne|].
  split.
  - exists (set_status cancelled old).
    split; [apply list_lookup_insert_eq; eauto using lookup_lt_Some|].
    split; reflexivity.
  - intros key Hkey. unfold cancelSubscription, findIndex. rewrite Hf.
    cbn. unfold getItem, setItem. now rewrite lookup_insert_ne.
Qed.

(** C10 at a ledger of three records, two of them with the id. *)
Lemma cancelSubscription_frame_witness :
  let ls := Demo.storage [Demo.record "sub_1" active; Demo.record "sub_2" active;
                          Demo.record "sub_2" expired] in
  list_find (fun sub => id sub = "sub_2") (loadSubscriptions (Some ls))
    = Some (1%nat, Demo.record "sub_2" active)
  /\ fst (cancelSubscription "sub_2" (Some ls)) = true
  /\ length (loadSubscriptions (snd (cancelSubscription "sub_2" (Some ls))))
     = length (loadSubscriptions (Some ls)).
Proof.
  cbv zeta.
  assert (Hf : list_find (fun sub => id sub = "sub_2")
            (loadSubscriptions (Some (Demo.storage
               [Demo.record "sub_1" active; Demo.record "sub_2" active;
                Demo.record "sub_2" expired])))
          = Some (1%nat, Demo.record "sub_2" active)) by (vm_compute; reflexivity).
  split; [exact Hf|].
  destruct (cancelSubscription_frame "sub_2" _ _ _ Hf) as (Hr & Hlen & _).
  split; assumption.
Defined.

(** ** The scenario of the specification *)

(** A monthly plan of 4.99 created on 31 January 2025 at 00:00 UTC: the
    next billing date is 3 March, 31 days ahead; the payment is due from
    that date on; a payment recorded an hour after it moves the billing date
    to 3 April at that hour, and the payment is no longer due. *)
Example scenario :
  let created :=
    createSubscription (fixedOffset 0) Demo.jan_31 "k3j9x2a" "basic" "wallet" "merchant"
      Demo.amount_4_99 monthly (Some "signature1") (Some ∅) in
  let paid :=
    recordPayment (fixedOffset 0) (Demo.mar_3 + 3600000) "sub_1738281600000_k3j9x2a"
      "signature2" (snd created) in
  id (fst created) = "sub_1738281600000_k3j9x2a"
  /\ nextBillingDate (fst created) = Demo.mar_3
  /\ getDaysUntilBilling Demo.jan_31 (fst created) = 31
  /\ isPaymentDue (Demo.mar_3 - 1) (fst created) = false
  /\ isPaymentDue Demo.mar_3 (fst created) = true
  /\ (nextBillingDate <$> fst paid) = Some (utcMidnight 2025 3 3 + 3600000)
  /\ (isPaymentDue (Demo.mar_3 + 3600000) <$> fst paid) = Some false
  /\ loadSubscriptions (snd paid) = option_list (fst paid).
Proof. vm_compute. repeat split. Qed.

(* ================================================================== *)
(** * Further lemmas                                                 *)
(* ================================================================== *)

Import Observations.

Module MoreLedgerFacts.

Lemma list_find_insert_same {A} (P : A -> Prop) `{forall x, Decision (P x)}
    (l : list A) i x y :
  list_find P l = Some (i, y) -> P x -> list_find P (<[i := x]> l) = Some (i, x).
Proof.
  intros Hf Hx. apply list_find_Some in Hf as (Hi & _ & Hleast).
  apply list_find_insert_Some. right; left.
  split; [reflexivity|]. split; [reflexivity|].
  split; [eauto using lookup_lt_Some|]. split; [assumption|].
  intros j z Hj Hlt. eauto.
Qed.

Section Ledger.
Variable zone : Zone.
Context `{JSON (list Subscription)}.

Lemma saveSubscriptions_other_key l ls key :
  key <> SUBSCRIPTIONS_KEY ->
  (saveSubscriptions l (Some ls) ≫= fun ls' => getItem ls' key) = getItem ls key.
Proof.
  intros Hk. cbn. unfold getItem, setItem. now rewrite lookup_insert_ne.
Qed.

Lemma saveSubscriptions_twice l l' w :
  saveSubscriptions l (saveSubscriptions l' w) = saveSubscriptions l w.
Proof.
  destruct w as [ls|]; [|reflexivity]. cbn. unfold setItem.
  now rewrite insert_insert_eq.
Qed.

(** A step writes no key but that of the ledger. *)
Lemma step_other_key w op key :
  key <> SUBSCRIPTIONS_KEY ->
  (step zone w op ≫= fun ls' => getItem ls' key) = (w ≫= fun ls => getItem ls key).
Proof.
  intros Hk. destruct w as [ls|].
  2:{ destruct op; cbn; unfold cancelSubscription, recordPayment, findIndex; cbn;
        reflexivity. }
  destruct op as [now rnd p wa m a c tx | sid | now sid tx]; cbn [step].
  - unfold createSubscription. cbn [snd]. now apply saveSubscriptions_other_key.
  - unfold cancelSubscription. destruct (findIndex _ _); cbn [snd]; [|reflexivity].
    now apply saveSubscriptions_other_key.
  - unfold recordPayment. destruct (findIndex _ _); cbn [snd]; [|reflexivity].
    destruct (_ !! _); cbn [snd]; [|reflexivity].
    now apply saveSubscriptions_other_key.
Qed.

Lemma step_core w op i r :
  loadSubscriptions w !! i = Some r ->
  exists r', loadSubscriptions (step zone w op) !! i = Some r' /\ core r' = core r.
Proof.
  intros Hr. destruct w as [ls|]; [|discriminate].
  destruct op as [now rnd p wa m a c tx | sid | now sid tx]; cbn [step].
  - rewrite createSubscription_ledger, lookup_app_l, Hr by eauto using lookup_lt_Some.
    eauto.
  - destruct (list_find (fun sub => id sub = sid) (loadSubscriptions (Some ls)))
      as [[j old]|] eqn:Hf.
    + destruct (cancelSubscription_found _ _ _ _ Hf) as [_ ->].
      pose proof (proj1 (list_find_Some _ _ _ _) Hf) as (Hj & _).
      destruct (decide (j = i)) as [-> | Hne].
      * rewrite list_lookup_insert_eq by eauto using lookup_lt_Some.
        rewrite Hr in Hj. injection Hj as ->. eauto.
      * rewrite list_lookup_insert_ne, Hr by assumption. eauto.
    + rewrite cancelSubscription_not_found by assumption. cbn [snd]. eauto.
  - destruct (list_find (fun sub => id sub = sid) (loadSubscriptions (Some ls)))
      as [[j old]|] eqn:Hf.
    + destruct (recordPayment_found zone now _ tx _ _ _ Hf) as [_ ->].
      pose proof (proj1 (list_find_Some _ _ _ _) Hf) as (Hj & _).
      destruct (decide (j = i)) as [-> | Hne].
      * rewrite list_lookup_insert_eq by eauto using lookup_lt_Some.
        rewrite Hr in Hj. injection Hj as ->. eauto.
      * rewrite list_lookup_insert_ne, Hr by assumption. eauto.
    + rewrite recordPayment_not_found by assumption. cbn [snd]. eauto.
Qed.

Lemma run_core ops w i r :
  loadSubscriptions w !! i = Some r ->
  exists r', loadSubscriptions (run zone ops w) !! i = Some r' /\ core r' = core r.
Proof.
  revert w r. induction ops as [|op ops IH]; intros w r Hr; cbn; [eauto|].
  destruct (step_core w op i r Hr) as (r1 & H1 & Hc1).
  destruct (IH _ _ H1) as (r2 & H2 & Hc2).
  exists r2. split; [assumption | congruence].
Qed.

Lemma step_length w op :
  (length (loadSubscriptions w) <= length (loadSubscriptions (step zone w op)))%nat.
Proof.
  destruct w as [ls|].
  2:{ cbn [loadSubscriptions length]. lia. }
  destruct op as [now rnd p wa m a c tx | sid | now sid tx]; cbn [step].
  - rewrite createSubscription_ledger, length_app. cbn [length]. lia.
  - destruct (list_find (fun sub => id sub = sid) (loadSubscriptions (Some ls)))
      as [[j old]|] eqn:Hf.
    + destruct (cancelSubscription_found _ _ _ _ Hf) as [_ ->].
      now rewrite length_insert.
    + now rewrite cancelSubscription_not_found.
  - destruct (list_find (fun sub => id sub = sid) (loadSubscriptions (Some ls)))
      as [[j old]|] eqn:Hf.
    + destruct (recordPayment_found zone now _ tx _ _ _ Hf) as [_ ->].
      now rewrite length_insert.
    + now rewrite recordPayment_not_found.
Qed.

Lemma run_length ops w :
  (length (loadSubscriptions w) <= length (loadSubscriptions (run zone ops w)))%nat.
Proof.
  revert w. induction ops as [|op ops IH]; intros w; [cbn; lia|].
  change (run zone (op :: ops) w) with (run zone ops (step zone w op)).
  pose proof (step_length w op). pose proof (IH (step zone w op)). lia.
Qed.
End Ledger.
End MoreLedgerFacts.

Import MoreLedgerFacts.

Module IdFacts.

Lemma no_underscore_uint d : no_underscore (NilEmpty.string_of_uint d) = true.
Proof. induction d; cbn; auto. Qed.

Lemma no_underscore_Z z : no_underscore (Z_to_string z) = true.
Proof.
  unfold Z_to_string, NilZero.string_of_int, NilZero.string_of_uint.
  destruct (Z.to_int z) as [d|d]; destruct d; cbn; auto using no_underscore_uint.
Qed.

Lemma append_underscore_inj a a' r r' :
  no_underscore a = true -> no_underscore a' = true ->
  a +:+ String "_" r = a' +:+ String "_" r' -> a = a' /\ r = r'.
Proof.
  revert a'. induction a as [|c a IH]; intros [|c' a'] Ha Ha' Heq;
    unfold String.app in Heq; fold String.app in Heq; cbn in Ha, Ha'.
  - now injection Heq as ->.
  - injection Heq as <- _. discriminate.
  - injection Heq as -> _. discriminate.
  - injection Heq as -> Heq.
    apply andb_prop in Ha as [_ Ha]. apply andb_prop in Ha' as [_ Ha'].
    destruct (IH a' Ha Ha' Heq) as [-> ->]. auto.
Qed.

Lemma to_int_not_nil z :
  Z.to_int z <> Decimal.Pos Decimal.Nil /\ Z.to_int z <> Decimal.Neg Decimal.Nil.
Proof.
  rewrite <- (DecimalZ.of_to z) at 1 2. rewrite DecimalZ.to_of.
  destruct (Z.to_int z) as [d|d]; cbn.
  - unfold Decimal.unorm. destruct (Decimal.nzhead d); split; discriminate.
  - destruct (Decimal.nzhead d); split; discriminate.
Qed.

Lemma Z_to_string_inj z z' : Z_to_string z = Z_to_string z' -> z = z'.
Proof.
  unfold Z_to_string. intros Heq.
  apply DecimalZ.to_int_inj.
  destruct (to_int_not_nil z) as [Hp Hn], (to_int_not_nil z') as [Hp' Hn'].
  pose proof (NilZero.isi _ Hp Hn) as H1. pose proof (NilZero.isi _ Hp' Hn') as H2.
  rewrite Heq in H1. congruence.
Qed.

Lemma key_id_inj key key' : key_id key = key_id key' -> key = key'.
Proof.
  destruct key as [now rnd], key' as [now' rnd']. unfold key_id. cbn [fst snd].
  intros Heq. unfold String.app in Heq at 1. fold String.app in Heq.
  injection Heq as Heq.
  change ("_" +:+ rnd) with (String "_" rnd) in Heq.
  change ("_" +:+ rnd') with (String "_" rnd') in Heq.
  apply append_underscore_inj in Heq as [Hz ->]; auto using no_underscore_Z.
  now apply Z_to_string_inj in Hz as ->.
Qed.

Section Ids.
Variable zone : Zone.
Context `{JSON (list Subscription)}.

Lemma step_ids ls op :
  exists ls', step zone (Some ls) op = Some ls'
    /\ id <$> loadSubscriptions (Some ls')
       = (id <$> loadSubscriptions (Some ls)) ++ (key_id <$> create_keys [op]).
Proof.
  destruct op as [now rnd p wa m a c tx | sid | now sid tx]; cbn [step].
  - eexists. split; [reflexivity|].
    change (Some (setItem ls SUBSCRIPTIONS_KEY _))
      with (snd (createSubscription zone now rnd p wa m a c tx (Some ls))).
    rewrite createSubscription_ledger, fmap_app. reflexivity.
  - cbn [create_keys omap fmap list_fmap]. rewrite app_nil_r.
    destruct (list_find (fun sub => id sub = sid) (loadSubscriptions (Some ls)))
      as [[j old]|] eqn:Hf.
    + destruct (cancelSubscription_found _ _ _ _ Hf) as [_ Hl].
      unfold cancelSubscription, findIndex in *. rewrite Hf in *.
      cbn [fmap option_fmap option_map fst snd saveSubscriptions] in *.
      eexists. split; [reflexivity|]. rewrite Hl, list_fmap_insert.
      apply list_insert_id. rewrite list_lookup_fmap.
      apply list_find_Some in Hf as (-> & _). reflexivity.
    + rewrite cancelSubscription_not_found by assumption. eauto.
  - cbn [create_keys omap fmap list_fmap]. rewrite app_nil_r.
    destruct (list_find (fun sub => id sub = sid) (loadSubscriptions (Some ls)))
      as [[j old]|] eqn:Hf.
    + destruct (recordPayment_found zone now _ tx _ _ _ Hf) as [_ Hl].
      pose proof (proj1 (list_find_Some _ _ _ _) Hf) as (Hj & _).
      unfold recordPayment, findIndex in *. rewrite Hf in *.
      cbn [fmap option_fmap option_map fst snd] in *. rewrite Hj in *.
      cbn [snd saveSubscriptions] in *.
      eexists. split; [reflexivity|]. rewrite Hl, list_fmap_insert.
      apply list_insert_id. rewrite list_lookup_fmap, Hj. reflexivity.
    + rewrite recordPayment_not_found by assumption. eauto.
Qed.

Lemma run_ids ops ls :
  id <$> loadSubscriptions (run zone ops (Some ls))
  = (id <$> loadSubscriptions (Some ls)) ++ (key_id <$> create_keys ops).
Proof.
  revert ls. induction ops as [|op ops IH]; intros ls.
  - cbn. now rewrite app_nil_r.
  - change (run zone (op :: ops) (Some ls)) with (run zone ops (step zone (Some ls) op)).
    destruct (step_ids ls op) as (ls' & -> & Hids).
    rewrite IH, Hids, <- app_assoc. f_equal.
    change (op :: ops) with ([op] ++ ops).
    unfold create_keys. now rewrite omap_app, fmap_app.
Qed.
End Ids.
End IdFacts.

Module DayFacts.

Lemma calculateNextBillingDate_cycle_days tza now cycle :
  calculateNextBillingDate (fixedOffset tza) now cycle
  = now + cycle_days (fixedOffset tza) now cycle * msPerDay.
Proof. apply calculateNextBillingDate_fixedOffset. Qed.

Lemma cycle_days_bounds zone now cycle :
  match cycle with
  | weekly => cycle_days zone now cycle = 7
  | monthly => 28 <= cycle_days zone now cycle <= 31
  | yearly => 365 <= cycle_days zone now cycle <= 366
  end.
Proof.
  destruct cycle; cbn [cycle_days].
  - reflexivity.
  - apply DaysInMonth_bounds, MonthFromTime_bounds.
  - pose proof (yearStep_cases (getFullYear zone now) (getMonth zone now)
                  (MonthFromTime_bounds _)). lia.
Qed.

Lemma ceiling_multiple k b : 0 < b -> ceiling (k * b) b = k.
Proof.
  intros Hb. unfold ceiling.
  replace (- (k * b)) with ((- k) * b) by lia.
  rewrite Z.div_mul by lia. lia.
Qed.

Lemma getDaysUntilBilling_ceiling now sub :
  getDaysUntilBilling now sub = Z.max 0 (ceiling (nextBillingDate sub - now) dayMs).
Proof.
  unfold getDaysUntilBilling. change (24 * 60 * 60 * 1000) with dayMs.
  now rewrite Math_ceil_div_ceiling.
Qed.

Lemma getDaysUntilBilling_whole_days now sub k :
  0 <= k -> nextBillingDate sub = now + k * msPerDay ->
  getDaysUntilBilling now sub = k.
Proof.
  intros Hk Hn. rewrite getDaysUntilBilling_ceiling, Hn.
  replace (now + k * msPerDay - now) with (k * dayMs) by (unfold msPerDay, dayMs; lia).
  rewrite ceiling_multiple by reflexivity. lia.
Qed.

Lemma ceiling_mono a a' b : 0 < b -> a <= a' -> ceiling a b <= ceiling a' b.
Proof.
  intros Hb Ha. unfold ceiling.
  pose proof (Z.div_le_mono (- a') (- a) b Hb ltac:(lia)). lia.
Qed.

End DayFacts.

Module HookFacts.
Import SubscriptionPlans UseSubscription.

Section Hook.
Variable zone : Zone.
Context `{JSON (list Subscription)}.
Variable wallet : Wallet.

Lemma disconnected_false :
  disconnected wallet = false
  <-> is_Some (smartWalletPubkey wallet) /\ isConnected wallet = true.
Proof.
  unfold disconnected. rewrite orb_false_iff, !negb_false_iff, bool_decide_eq_true.
  reflexivity.
Qed.

(** The list that [refresh] sets holds records of the wallet only. *)
Lemma refresh_owner w r :
  r ∈ refresh wallet w -> smartWalletPubkey wallet = Some (walletAddress r).
Proof.
  unfold refresh, getWalletSubscriptions.
  destruct (smartWalletPubkey wallet) as [key|].
  - intros Hin. apply list_elem_of_filter in Hin as [-> _]. reflexivity.
  - intros Hin. now apply elem_of_nil in Hin.
Qed.

Lemma find_plan planId' :
  match list_find (fun p => plan_id p = planId') DEMO_PLANS with
  | Some (_, plan) => plan ∈ DEMO_PLANS /\ plan_id plan = planId'
  | None => forall plan, plan ∈ DEMO_PLANS -> plan_id plan <> planId'
  end.
Proof.
  destruct (list_find _ DEMO_PLANS) as [[i plan]|] eqn:Hf.
  - apply list_find_Some in Hf as (Hi & Hp & _).
    split; [eauto using list_elem_of_lookup_2 | assumption].
  - apply (list_find_None (fun p => plan_id p = planId') DEMO_PLANS) in Hf.
    intros plan Hin. now apply (proj1 (Forall_forall _ _) Hf).
Qed.

(** What a payment that went through has passed. *)
Lemma processPayment_signed payment now subscriptionId st w signature :
  returned (processPayment zone wallet payment now subscriptionId st w)
    = Some signature ->
  payment = payment_signed signature
  /\ disconnected wallet = false
  /\ (exists i s,
        list_find (fun s => id s = subscriptionId) (subscriptions st) = Some (i, s)
        /\ status s = active)
  /\ processPayment zone wallet payment now subscriptionId st w
     = let w' := snd (recordPayment zone now subscriptionId signature w) in
       {| returned := Some signature;
          state := {| subscriptions := refresh wallet w'; isLoading := false |};
          UseSubscription.window := w';
          toasts := [toast_success "Payment processed successfully!"] |}.
Proof.
  unfold processPayment.
  destruct (disconnected wallet); [discriminate|].
  destruct (list_find _ (subscriptions st)) as [[j s]|]; [|discriminate].
  case_bool_decide as Hst; cbn [negb]; [|discriminate].
  destruct payment as [signature'|message]; [|discriminate].
  cbn [returned]. intros [= ->]. eauto 10.
Qed.
End Hook.
End HookFacts.

Module PageFacts.
Import SubscriptionPlans UseSubscription SubscriptionPage.

Lemma filter_all {A} (P : A -> Prop) `{forall x, Decision (P x)} (l : list A) :
  Forall P l -> filter P l = l.
Proof.
  induction 1 as [|x l Hx _ IH]; [reflexivity|].
  now rewrite filter_cons_True, IH.
Qed.

(** In a list whose ids are distinct, to replace the record of an id by one
    that [Q] refuses is to drop that id from what [Q] keeps. *)
Lemma filter_insert_id (Q : Subscription -> Prop) `{forall x, Decision (Q x)}
    (l : list Subscription) i old new :
  NoDup (id <$> l) -> l !! i = Some old -> ~ Q new ->
  filter Q (<[i := new]> l) = filter (fun r => id r <> id old) (filter Q l).
Proof.
  revert i. induction l as [|a l IH]; intros [|i] Hnd Hi Hnew; try discriminate.
  - injection Hi as ->. cbn [fmap list_fmap] in Hnd.
    apply NoDup_cons in Hnd as [Hnotin _].
    assert (Hall : Forall (fun r => id r <> id old) (filter Q l)).
    { apply Forall_forall. intros r Hin Hid. apply Hnotin.
      apply list_elem_of_filter in Hin as [_ Hin].
      apply list_elem_of_fmap. eauto. }
    cbn [insert list_insert]. rewrite filter_cons_False by assumption.
    destruct (decide (Q old)) as [Hq|Hq].
    + rewrite (filter_cons_True Q) by assumption.
      rewrite filter_cons_False by (intros Hne; now apply Hne).
      symmetry. now apply filter_all.
    + rewrite (filter_cons_False Q) by assumption. symmetry. now apply filter_all.
  - cbn in Hi. cbn [fmap list_fmap] in Hnd.
    apply NoDup_cons in Hnd as [Hnotin Hnd].
    assert (Ha : id a <> id old).
    { intros Heq. apply Hnotin. rewrite Heq.
      apply list_elem_of_fmap. eauto using list_elem_of_lookup_2. }
    cbn [insert list_insert].
    destruct (decide (Q a)) as [Hq|Hq].
    + rewrite !(filter_cons_True Q) by assumption.
      rewrite filter_cons_True by assumption.
      f_equal. now apply IH.
    + rewrite !(filter_cons_False Q) by assumption. now apply IH.
Qed.

Lemma list_find_singleton {A} (P : A -> Prop) `{forall x, Decision (P x)} x :
  P x -> list_find P [x] = Some (0%nat, x).
Proof.
  intros Hx. apply list_find_Some. split; [reflexivity|]. split; [assumption|].
  intros j y _ Hlt. lia.
Qed.

Lemma plan_id_nonempty plan :
  plan ∈ DEMO_PLANS -> truthy (Some (plan_id plan)) = true.
Proof.
  unfold DEMO_PLANS. intros Hin.
  repeat (apply elem_of_cons in Hin as [-> | Hin]; [reflexivity|]).
  now apply elem_of_nil in Hin.
Qed.
End PageFacts.

Module SessionFacts.
Import UseSession UseSessionEffects.

Section Session.
Context `{JSON SessionData}.

Lemma loadSession_setItem ls info text :
  loadSession {| window := Some (setItem ls SESSION_KEY text); sessionInfo := info |}
  = if truthy (Some text) then JSON_parse text else None.
Proof.
  unfold loadSession, getItem, setItem. cbn [window].
  rewrite lookup_insert_eq. destruct (truthy (Some text)); cbn [negb]; [|reflexivity].
  now destruct (JSON_parse text).
Qed.

Lemma loadSession_saveSession now key ls info :
  loadSession (saveSession now key {| window := Some ls; sessionInfo := info |})
  = Some {| connected := true; timestamp := now; walletAddress := key |}.
Proof.
  unfold saveSession. cbn [window].
  now rewrite loadSession_setItem, truthy_stringify, JSON_parse_stringify.
Qed.

Lemma loadSession_clearSession h : loadSession (clearSession h) = None.
Proof.
  unfold loadSession, clearSession, getItem, removeItem.
  destruct h as [[ls|] info]; cbn [window]; [|reflexivity].
  now rewrite lookup_delete_eq.
Qed.

Lemma loadSession_sessionInfo h info :
  loadSession {| window := window h; sessionInfo := info |} = loadSession h.
Proof. reflexivity. Qed.
End Session.
End SessionFacts.

Module FrameFacts.
Import UseSession.

Lemma SESSION_KEY_SUBSCRIPTIONS_KEY : SESSION_KEY <> SUBSCRIPTIONS_KEY.
Proof. discriminate. Qed.

Section Frame.
Variable zone : Zone.
Context `{JSON SessionData} `{JSON (list Subscription)}.

Lemma run_other_key ops w key :
  key <> SUBSCRIPTIONS_KEY ->
  (run zone ops w ≫= fun ls' => getItem ls' key) = (w ≫= fun ls => getItem ls key).
Proof.
  intros Hk. revert w. induction ops as [|op ops IH]; intros w; [reflexivity|].
  change (run zone (op :: ops) w) with (run zone ops (step zone w op)).
  rewrite IH. now apply step_other_key.
Qed.

(** [loadSession] reads the session key only. *)
Lemma loadSession_key h h' :
  (window h ≫= fun ls => getItem ls SESSION_KEY)
  = (window h' ≫= fun ls => getItem ls SESSION_KEY) ->
  loadSession h = loadSession h'.
Proof.
  unfold loadSession. destruct (window h) as [ls|], (window h') as [ls'|]; cbn.
  - now intros ->.
  - intros ->. reflexivity.
  - intros <-. reflexivity.
  - reflexivity.
Qed.

(** [loadSubscriptions] reads the ledger key only. *)
Lemma loadSubscriptions_key w w' :
  (w ≫= fun ls => getItem ls SUBSCRIPTIONS_KEY)
  = (w' ≫= fun ls => getItem ls SUBSCRIPTIONS_KEY) ->
  loadSubscriptions w = loadSubscriptions w'.
Proof.
  unfold loadSubscriptions. destruct w as [ls|], w' as [ls'|]; cbn.
  - now intros ->.
  - intros ->. reflexivity.
  - intros <-. reflexivity.
  - reflexivity.
Qed.
End Frame.
End FrameFacts.

(* ================================================================== *)
(** * Further properties: the ledger                                 *)
(* ================================================================== *)

Import IdFacts DayFacts.

(** X1. [saveSubscriptions] then [loadSubscriptions] gives back the list
    that was saved; a second save replaces the first; no other key of the
    storage is written; and on the server, where there is no [window],
    nothing is saved and the ledger loads as empty. *)
Theorem saveSubscriptions_loadSubscriptions `{JSON (list Subscription)}
    (l l' : list Subscription) (ls : Storage) :
  loadSubscriptions (saveSubscriptions l (Some ls)) = l
  /\ saveSubscriptions l (saveSubscriptions l' (Some ls)) = saveSubscriptions l (Some ls)
  /\ (forall key, key <> SUBSCRIPTIONS_KEY ->
        (saveSubscriptions l (Some ls) ≫= fun ls' => getItem ls' key) = getItem ls key)
  /\ loadSubscriptions (saveSubscriptions l None) = [].
Proof.
  split; [apply loadSubscriptions_saveSubscriptions|].
  split; [apply saveSubscriptions_twice|].
  split; [intros key; apply saveSubscriptions_other_key | reflexivity].
Qed.

(** X2. After [createSubscription] the subscriptions of an address are
    those it had before, in the same order, followed by the new record when
    it was created for that address; the view of any other address is
    unchanged. *)
Theorem getWalletSubscriptions_createSubscription `{JSON (list Subscription)}
    (zone : Zone) (now : Z) (rnd planId' walletAddress' merchantAddress' : string)
    (amount' : number) (billingCycle' : BillingCycle) (paymentTx : option string)
    (ls : Storage) (address : string) :
  let created := createSubscription zone now rnd planId' walletAddress'
                   merchantAddress' amount' billingCycle' paymentTx (Some ls) in
  getWalletSubscriptions (snd created) address
  = getWalletSubscriptions (Some ls) address
    ++ (if decide (walletAddress' = address) then [fst created] else []).
Proof.
  cbv zeta. unfold getWalletSubscriptions.
  rewrite createSubscription_ledger, filter_app. reflexivity.
Qed.

(** X3. After [createSubscription], [getSubscription] finds what it found
    before; an id that was not in the ledger is found only when it is the id
    of the new record.  An earlier record with the same id hides the new
    one. *)
Theorem getSubscription_createSubscription `{JSON (list Subscription)}
    (zone : Zone) (now : Z) (rnd planId' walletAddress' merchantAddress' : string)
    (amount' : number) (billingCycle' : BillingCycle) (paymentTx : option string)
    (ls : Storage) (subscriptionId : string) :
  let created := createSubscription zone now rnd planId' walletAddress'
                   merchantAddress' amount' billingCycle' paymentTx (Some ls) in
  getSubscription (snd created) subscriptionId
  = match getSubscription (Some ls) subscriptionId with
    | Some earlier => Some earlier
    | None => if decide (id (fst created) = subscriptionId)
              then Some (fst created) else None
    end.
Proof.
  cbv zeta. unfold getSubscription. rewrite createSubscription_ledger.
  destruct (list_find (fun sub => id sub = subscriptionId) (loadSubscriptions (Some ls)))
    as [[i r]|] eqn:Hf.
  - erewrite list_find_app_l by exact Hf. reflexivity.
  - rewrite list_find_app_r by exact Hf. cbn [fmap option_fmap option_map].
    cbn [list_find]. 
    destruct (decide (id (fst (createSubscription zone now rnd planId' walletAddress'
                merchantAddress' amount' billingCycle' paymentTx (Some ls)))
              = subscriptionId)); reflexivity.
Qed.

(** X4. To cancel the same id a second time returns what the first call
    returned and leaves the storage as the first call left it. *)
Theorem cancelSubscription_idempotent `{JSON (list Subscription)}
    (subscriptionId : string) (w : Window) :
  cancelSubscription subscriptionId (snd (cancelSubscription subscriptionId w))
  = cancelSubscription subscriptionId w.
Proof.
  destruct w as [ls|].
  2:{ reflexivity. }
  destruct (list_find (fun sub => id sub = subscriptionId) (loadSubscriptions (Some ls)))
    as [[i old]|] eqn:Hf.
  - destruct (cancelSubscription_found _ _ _ _ Hf) as [Hr Hl].
    assert (Hw : cancelSubscription subscriptionId (Some ls)
                 = (true, saveSubscriptions
                            (<[i := set_status cancelled old]> (loadSubscriptions (Some ls)))
                            (Some ls))).
    { unfold cancelSubscription, findIndex. rewrite Hf.
      cbn [fmap option_fmap option_map fst].
      apply list_find_Some in Hf as (Hi & _).
      now rewrite (list_alter_insert _ _ _ _ Hi). }
    rewrite Hw. cbn [snd].
    assert (Hf' : list_find (fun sub => id sub = subscriptionId)
              (<[i := set_status cancelled old]> (loadSubscriptions (Some ls)))
            = Some (i, set_status cancelled old)).
    { apply (list_find_insert_same _ _ _ _ old); [exact Hf|].
      apply list_find_Some in Hf as (_ & Hid & _). exact Hid. }
    unfold cancelSubscription at 1, findIndex.
    rewrite loadSubscriptions_saveSubscriptions, Hf'.
    cbn [fmap option_fmap option_map fst].
    rewrite (list_alter_insert _ _ _ (set_status cancelled old)).
    2:{ apply list_find_Some in Hf' as (Hi' & _). exact Hi'. }
    rewrite list_insert_insert_eq, saveSubscriptions_twice. reflexivity.
  - rewrite (cancelSubscription_not_found subscriptionId (Some ls) Hf).
    cbn [snd]. apply (cancelSubscription_not_found subscriptionId (Some ls) Hf).
Qed.

(** X5. [cancelSubscription] returns [true] exactly when [getSubscription]
    finds the id; the record that [getSubscription] then finds is the old one
    with status [cancelled], and [isPaymentDue] is false for it at every
    time. *)
Theorem cancelled_subscription_never_due `{JSON (list Subscription)}
    (subscriptionId : string) (ls : Storage) :
  let result := cancelSubscription subscriptionId (Some ls) in
  match getSubscription (Some ls) subscriptionId with
  | None => fst result = false
  | Some old =>
      fst result = true
      /\ getSubscription (snd result) subscriptionId = Some (set_status cancelled old)
      /\ forall now, isPaymentDue now (set_status cancelled old) = false
  end.
Proof.
  cbv zeta. unfold getSubscription.
  destruct (list_find (fun sub => id sub = subscriptionId) (loadSubscriptions (Some ls)))
    as [[i old]|] eqn:Hf; cbn [fmap option_fmap option_map snd].
  - destruct (cancelSubscription_found _ _ _ _ Hf) as [Hr Hl].
    split; [exact Hr|]. split.
    + rewrite Hl.
      rewrite (list_find_insert_same _ _ _ (set_status cancelled old) old Hf).
      * reflexivity.
      * apply list_find_Some in Hf as (_ & Hid & _). exact Hid.
    + intros now. reflexivity.
  - now rewrite cancelSubscription_not_found.
Qed.

(** X6. [recordPayment] keeps the length of the ledger and every other key
    of the storage; with no record of the id the ledger is unchanged;
    otherwise only the first record of the id changes, and its id, plan,
    addresses, amount, billing cycle, start date and status stay as they
    were. *)
Theorem recordPayment_frame `{JSON (list Subscription)} (zone : Zone) (now : Z)
    (subscriptionId paymentTx : string) (ls : Storage) :
  let ledger := loadSubscriptions (Some ls) in
  let result := recordPayment zone now subscriptionId paymentTx (Some ls) in
  let ledger' := loadSubscriptions (snd result) in
  length ledger' = length ledger
  /\ (forall key, key <> SUBSCRIPTIONS_KEY ->
        (snd result ≫= fun ls' => getItem ls' key) = getItem ls key)
  /\ match list_find (fun sub => id sub = subscriptionId) ledger with
     | None => ledger' = ledger
     | Some (i, old) =>
         (forall j, j <> i -> ledger' !! j = ledger !! j)
         /\ exists new,
              fst result = Some new /\ ledger' !! i = Some new
              /\ core new = core old /\ status new = status old
     end.
Proof.
  cbv zeta.
  destruct (list_find (fun sub => id sub = subscriptionId) (loadSubscriptions (Some ls)))
    as [[i old]|] eqn:Hf.
  - destruct (recordPayment_found zone now _ paymentTx _ _ _ Hf) as [Hr Hl].
    pose proof (proj1 (list_find_Some _ _ _ _) Hf) as (Hi & _).
    rewrite Hl. split; [apply length_insert|]. split.
    + intros key Hkey. unfold recordPayment, findIndex. rewrite Hf.
      cbn [fmap option_fmap option_map fst]. rewrite Hi. cbn [snd].
      now apply saveSubscriptions_other_key.
    + split; [intros j Hj; now apply list_lookup_insert_ne|].
      eexists. split; [exact Hr|].
      split; [apply list_lookup_insert_eq; eauto using lookup_lt_Some|].
      split; reflexivity.
  - rewrite recordPayment_not_found by assumption. cbn [snd]. repeat split.
Qed.

(** X7. Two calls of [createSubscription] give the same id exactly when
    they read the same time and the same random text, whatever their other
    arguments and the storage. *)
Theorem createSubscription_id_injective `{JSON (list Subscription)}
    (zone zone' : Zone) (now now' : Z) (rnd rnd' p p' wa wa' m m' : string) (a a' : number)
    (c c' : BillingCycle) (tx tx' : option string) (w w' : Window) :
  id (fst (createSubscription zone now rnd p wa m a c tx w))
  = id (fst (createSubscription zone' now' rnd' p' wa' m' a' c' tx' w'))
  <-> now = now' /\ rnd = rnd'.
Proof.
  unfold createSubscription. cbn [fst id]. split.
  - intros Heq. apply (key_id_inj (now, rnd) (now', rnd')) in Heq.
    now injection Heq.
  - now intros [-> ->].
Qed.

(** X8. Starting from an empty storage, when no two creations of a history
    read the same time and the same random text, the ids of the ledger are
    pairwise distinct after the history. *)
Theorem ledger_ids_distinct `{JSON (list Subscription)} (zone : Zone) (ops : list Op) :
  NoDup (create_keys ops) ->
  NoDup (id <$> loadSubscriptions (run zone ops (Some ∅))).
Proof.
  intros Hnd. rewrite run_ids.
  assert (Hempty : loadSubscriptions (Some ∅) = []) by reflexivity.
  rewrite Hempty. cbn [fmap list_fmap app].
  apply NoDup_fmap_2_strong; [|assumption].
  intros k k' _ _. apply key_id_inj.
Qed.

Lemma ledger_ids_distinct_witness :
  let ops := [Create 1738281600000 "k3j9x2a" "basic" "w" "m" Demo.amount_4_99 monthly None;
              Cancel "sub_1738281600000_k3j9x2a";
              Create 1738281600000 "zzz0001" "pro" "w" "m" Demo.amount_4_99 monthly None] in
  NoDup (create_keys ops)
  /\ NoDup (id <$> loadSubscriptions (run (fixedOffset 0) ops (Some ∅))).
Proof.
  cbv zeta.
  assert (Hnd : NoDup (create_keys
     [Create 1738281600000 "k3j9x2a" "basic" "w" "m" Demo.amount_4_99 monthly None;
      Cancel "sub_1738281600000_k3j9x2a";
      Create 1738281600000 "zzz0001" "pro" "w" "m" Demo.amount_4_99 monthly None])).
  { vm_compute. apply NoDup_cons. split.
    - intros Hin. apply list_elem_of_singleton in Hin. discriminate.
    - apply NoDup_singleton. }
  split; [exact Hnd|]. exact (ledger_ids_distinct (fixedOffset 0) _ Hnd).
Defined.

(** X9. Over any history of createSubscription, cancelSubscription and
    recordPayment the ledger never gets shorter, every record keeps its
    position and its id, plan, addresses, amount, billing cycle and start
    date, and no other key of the storage is written. *)
Theorem history_keeps_records `{JSON (list Subscription)} (zone : Zone) (ops : list Op)
    (window : Window) :
  (length (loadSubscriptions window)
   <= length (loadSubscriptions (run zone ops window)))%nat
  /\ (forall i r, loadSubscriptions window !! i = Some r ->
        exists r', loadSubscriptions (run zone ops window) !! i = Some r'
                   /\ core r' = core r)
  /\ (forall key, key <> SUBSCRIPTIONS_KEY ->
        (run zone ops window ≫= fun ls' => getItem ls' key)
        = (window ≫= fun ls => getItem ls key)).
Proof.
  split; [apply run_length|]. split; [intros i r; apply run_core|].
  intros key Hkey. revert window.
  induction ops as [|op ops IH]; intros window; [reflexivity|].
  change (run zone (op :: ops) window) with (run zone ops (step zone window op)).
  rewrite IH. now apply step_other_key.
Qed.

(** X10. In a zone of fixed offset: at the time of the call,
    [getDaysUntilBilling] of the record that [createSubscription] returns is
    the number of days of the cycle: 7 for a week, 28 to 31 for a month, 365
    or 366 for a year.  The same holds for the record that [recordPayment]
    returns, which is not due at that time. *)
Theorem days_of_a_new_cycle `{JSON (list Subscription)} (tza now : Z)
    (rnd planId' walletAddress' merchantAddress' : string) (amount' : number)
    (billingCycle' : BillingCycle) (paymentTx : option string)
    (subscriptionId tx : string) (ls : Storage) :
  let created := fst (createSubscription (fixedOffset tza) now rnd planId' walletAddress'
                        merchantAddress' amount' billingCycle' paymentTx (Some ls)) in
  getDaysUntilBilling now created = cycle_days (fixedOffset tza) now billingCycle'
  /\ (forall paid,
        fst (recordPayment (fixedOffset tza) now subscriptionId tx (Some ls)) = Some paid ->
        isPaymentDue now paid = false
        /\ getDaysUntilBilling now paid = cycle_days (fixedOffset tza) now (billingCycle paid))
  /\ (forall cycle,
        match cycle with
        | weekly => cycle_days (fixedOffset tza) now cycle = 7
        | monthly => 28 <= cycle_days (fixedOffset tza) now cycle <= 31
        | yearly => 365 <= cycle_days (fixedOffset tza) now cycle <= 366
        end).
Proof.
  cbv zeta. split; [|split].
  - apply getDaysUntilBilling_whole_days.
    + pose proof (cycle_days_bounds (fixedOffset tza) now billingCycle'). destruct billingCycle'; lia.
    + unfold createSubscription. cbn [fst nextBillingDate].
      apply calculateNextBillingDate_cycle_days.
  - intros paid Hpaid.
    destruct (list_find (fun sub => id sub = subscriptionId) (loadSubscriptions (Some ls)))
      as [[i old]|] eqn:Hf.
    + destruct (recordPayment_found (fixedOffset tza) now _ tx _ _ _ Hf) as [Hr _].
      rewrite Hr in Hpaid. injection Hpaid as <-.
      pose proof (cycle_days_bounds (fixedOffset tza) now (billingCycle old)) as Hb.
      split.
      * apply isPaymentDue_false. cbn [set_payment nextBillingDate].
        rewrite calculateNextBillingDate_cycle_days. unfold msPerDay.
        destruct (billingCycle old); lia.
      * apply getDaysUntilBilling_whole_days.
        -- cbn [set_payment billingCycle]. destruct (billingCycle old); lia.
        -- cbn [set_payment nextBillingDate billingCycle].
           apply calculateNextBillingDate_cycle_days.
    + rewrite recordPayment_not_found in Hpaid by assumption. discriminate.
  - intros cycle. apply cycle_days_bounds.
Qed.

(** X11. [getDaysUntilBilling] is never negative and never grows as time
    passes; [isPaymentDue] holds exactly when the status is active and
    [getDaysUntilBilling] is 0. *)
Theorem days_and_due (now : Z) (sub : Subscription) :
  0 <= getDaysUntilBilling now sub
  /\ isPaymentDue now sub
     = bool_decide (status sub = active) && (getDaysUntilBilling now sub =? 0)
  /\ (forall later, now <= later ->
        getDaysUntilBilling later sub <= getDaysUntilBilling now sub).
Proof.
  split; [unfold getDaysUntilBilling; lia|]. split.
  - unfold isPaymentDue. rewrite getDaysUntilBilling_ceiling.
    pose proof (ceiling_spec (nextBillingDate sub - now) dayMs eq_refl) as Hc.
    case_bool_decide; cbn [negb andb]; [|reflexivity].
    set (c := ceiling (nextBillingDate sub - now) dayMs) in *.
    unfold dayMs in Hc.
    destruct (Z.eqb_spec (Z.max 0 c) 0) as [He|He].
    + apply Z.geb_le. lia.
    + rewrite Z.geb_leb. apply Z.leb_gt. lia.
  - intros later Hl. rewrite !getDaysUntilBilling_ceiling.
    pose proof (ceiling_mono (nextBillingDate sub - later) (nextBillingDate sub - now)
                  dayMs eq_refl ltac:(lia)). lia.
Qed.

(** X12. [getCycleDuration] against what [calculateNextBillingDate] adds
    in a zone of fixed offset: equal for a week; for a month the calendar step lies between two days
    less and one day more than the 30 days; for a year it is the 365 days or
    one day more. *)
Theorem getCycleDuration_vs_calendar (tza d : Z) (cycle : BillingCycle) :
  let actual := calculateNextBillingDate (fixedOffset tza) d cycle - d in
  match cycle with
  | weekly => actual = getCycleDuration weekly
  | monthly =>
      getCycleDuration monthly - 2 * msPerDay <= actual
      <= getCycleDuration monthly + msPerDay
  | yearly =>
      getCycleDuration yearly <= actual <= getCycleDuration yearly + msPerDay
  end.
Proof.
  cbv zeta. rewrite calculateNextBillingDate_cycle_days.
  pose proof (cycle_days_bounds (fixedOffset tza) d cycle) as Hb.
  destruct cycle; cbn [getCycleDuration]; unfold msPerDay; lia.
Qed.

(** X13. After [clearAllSubscriptions] the ledger loads as empty,
    [getSubscription] finds nothing, [cancelSubscription] returns [false] and
    [recordPayment] returns [null], both leaving the storage as it is; and
    every other key of the storage is kept. *)
Theorem clearAllSubscriptions_empties `{JSON (list Subscription)} (zone : Zone) (now : Z)
    (subscriptionId tx : string) (window : Window) :
  let cleared := clearAllSubscriptions window in
  loadSubscriptions cleared = []
  /\ getSubscription cleared subscriptionId = None
  /\ cancelSubscription subscriptionId cleared = (false, cleared)
  /\ recordPayment zone now subscriptionId tx cleared = (None, cleared)
  /\ (forall key, key <> SUBSCRIPTIONS_KEY ->
        (cleared ≫= fun ls' => getItem ls' key) = (window ≫= fun ls => getItem ls key)).
Proof.
  cbv zeta.
  assert (Hl : loadSubscriptions (clearAllSubscriptions window) = []).
  { destruct window as [ls|]; [|reflexivity].
    unfold loadSubscriptions, clearAllSubscriptions, getItem, removeItem.
    now rewrite lookup_delete_eq. }
  split; [exact Hl|].
  unfold getSubscription, cancelSubscription, recordPayment, findIndex.
  rewrite Hl. cbn. repeat split.
  intros key Hkey. destruct window as [ls|]; [|reflexivity].
  cbn. unfold getItem, removeItem. now rewrite lookup_delete_ne.
Qed.

(* ================================================================== *)
(** * Further properties: the hook of the subscriptions and the pages*)
(* ================================================================== *)

Import SubscriptionPlans UseSubscription HookFacts SubscriptionPage PageFacts.

(** X14. [subscribe] resolves to an id exactly when the wallet has a key and
    is connected, the plan is one of [DEMO_PLANS] and the payment was signed;
    when it resolves to [null] the storage and the list of the hook are
    unchanged.  On success the ledger has one more record, last: active, of
    the wallet, with the amount and the cycle of the plan and the signature
    as last payment; and the list of the hook is the earlier view of the
    wallet followed by that record. *)
Theorem subscribe_outcome `{JSON (list Subscription)} (zone : Zone) (now : Z) (wallet : Wallet)
    (payment : Payment) (rnd planId' merchantAddress' : string)
    (st : State) (ls : Storage) :
  let o := subscribe zone wallet payment now rnd planId' merchantAddress' st (Some ls) in
  (returned o = None ->
     UseSubscription.window o = Some ls /\ subscriptions (state o) = subscriptions st)
  /\ (is_Some (returned o)
      <-> is_Some (smartWalletPubkey wallet) /\ isConnected wallet = true
          /\ (exists plan, plan ∈ DEMO_PLANS /\ plan_id plan = planId')
          /\ exists signature, payment = payment_signed signature)
  /\ (forall i, returned o = Some i ->
        exists key plan signature created,
          smartWalletPubkey wallet = Some key
          /\ plan ∈ DEMO_PLANS /\ plan_id plan = planId'
          /\ payment = payment_signed signature
          /\ loadSubscriptions (UseSubscription.window o)
             = loadSubscriptions (Some ls) ++ [created]
          /\ subscriptions (state o) = getWalletSubscriptions (Some ls) key ++ [created]
          /\ isLoading (state o) = false
          /\ id created = i
          /\ planId created = planId'
          /\ walletAddress created = key
          /\ merchantAddress created = merchantAddress'
          /\ amount created = plan_amount plan
          /\ billingCycle created = plan_billingCycle plan
          /\ status created = active
          /\ lastPaymentTx created = Some signature).
Proof.
  cbv zeta. unfold subscribe.
  pose proof (disconnected_false wallet) as Hd.
  pose proof (find_plan planId') as Hp.
  destruct (smartWalletPubkey wallet) as [key|] eqn:Hkey.
  2:{ cbn. split; [auto|]. split.
      - split; [intros [? [=]] | intros ([? [=]] & _)].
      - intros i [=]. }
  destruct (disconnected wallet) eqn:Hdis.
  { cbn. split; [auto|]. split.
    - split; [intros [? [=]] | intros (Hs & Hc & _)].
      assert (true = false) by (apply Hd; auto). discriminate.
    - intros i [=]. }
  destruct Hd as [Hd _]. destruct (Hd eq_refl) as [_ Hc].
  destruct (list_find _ DEMO_PLANS) as [[j plan]|].
  2:{ cbn. split; [auto|]. split.
      - split; [intros [? [=]] | intros (_ & _ & (plan & Hin & Hid) & _)].
        now destruct (Hp plan Hin).
      - intros i [=]. }
  destruct Hp as [Hin Hid].
  destruct payment as [signature|message].
  2:{ cbn. split; [auto|]. split.
      - split; [intros [? [=]] | intros (_ & _ & _ & (s & [=]))].
      - intros i [=]. }
  cbn [returned state UseSubscription.window subscriptions isLoading].
  split; [discriminate|]. split.
  - split; [intros _ | eauto]. repeat split; eauto.
  - intros i [= <-].
    exists key, plan, signature,
      (fst (createSubscription zone now rnd planId' key merchantAddress'
              (plan_amount plan) (plan_billingCycle plan) (Some signature) (Some ls))).
    split; [reflexivity|]. split; [assumption|]. split; [assumption|].
    split; [reflexivity|]. split; [apply createSubscription_ledger|].
    split.
    { unfold refresh. rewrite Hkey. unfold getWalletSubscriptions.
      rewrite createSubscription_ledger, filter_app, filter_cons_True by reflexivity.
      reflexivity. }
    repeat split.
Qed.

(** X15. [cancel] of the hook returns [true] exactly when the id is in the
    ledger, whatever the wallet: the first record of the id is cancelled even
    when it belongs to another address, in which case it does not show in the
    list of the hook.  When it returns [false] the storage and the list are
    unchanged; loading is off afterwards either way. *)
Theorem cancel_checks_no_owner `{JSON (list Subscription)} (wallet : Wallet)
    (subscriptionId : string) (st : State) (ls : Storage) :
  let o := cancel wallet subscriptionId st (Some ls) in
  returned o = bool_decide (subscriptionId ∈ id <$> loadSubscriptions (Some ls))
  /\ isLoading (state o) = false
  /\ (returned o = false ->
        UseSubscription.window o = Some ls
        /\ subscriptions (state o) = subscriptions st)
  /\ (forall i r,
        list_find (fun sub => id sub = subscriptionId) (loadSubscriptions (Some ls))
          = Some (i, r) ->
        loadSubscriptions (UseSubscription.window o)
          = <[i := set_status cancelled r]> (loadSubscriptions (Some ls))
        /\ (smartWalletPubkey wallet <> Some (walletAddress r) ->
              set_status cancelled r ∉ subscriptions (state o))).
Proof.
  cbv zeta. unfold cancel.
  destruct (list_find (fun sub => id sub = subscriptionId) (loadSubscriptions (Some ls)))
    as [[j old]|] eqn:Hf.
  - destruct (cancelSubscription_found _ _ _ _ Hf) as [Hr Hl].
    rewrite Hr. cbn [returned state UseSubscription.window subscriptions isLoading].
    apply list_find_Some in Hf as (Hj & Hid & _).
    split.
    { symmetry. apply bool_decide_eq_true. apply list_elem_of_fmap.
      exists old. split; [now symmetry | eauto using list_elem_of_lookup_2]. }
    split; [reflexivity|]. split; [discriminate|].
    intros i r [= <- <-]. split; [exact Hl|].
    intros Hne Hin. apply refresh_owner in Hin. contradiction.
  - rewrite (cancelSubscription_not_found subscriptionId (Some ls) Hf).
    cbn [fst snd returned state UseSubscription.window subscriptions isLoading loading].
    apply (list_find_None (fun sub => id sub = subscriptionId)) in Hf.
    split.
    { symmetry. apply bool_decide_eq_false. intros Hin.
      apply list_elem_of_fmap in Hin as (r & Hid & Hin).
      apply (proj1 (Forall_forall _ _) Hf r Hin). now symmetry. }
    split; [reflexivity|]. split; [auto|]. intros i r [=].
Qed.

(** X16. [processPayment] resolves to a signature exactly when the payment
    was signed with it, the wallet has a key and is connected, and the list
    of the hook holds a record of the id whose first one is active.  When it
    resolves to [null] the storage and the list are unchanged.  On success
    the storage is what [recordPayment] leaves and the list is refreshed from
    it; when the ledger holds no record of the id the storage is
    unchanged although the payment went through. *)
Theorem processPayment_outcome `{JSON (list Subscription)} (zone : Zone) (now : Z)
    (wallet : Wallet) (payment : Payment) (subscriptionId : string)
    (st : State) (w : Window) :
  let o := processPayment zone wallet payment now subscriptionId st w in
  (returned o = None ->
     UseSubscription.window o = w /\ subscriptions (state o) = subscriptions st)
  /\ (forall signature,
        returned o = Some signature
        <-> payment = payment_signed signature
            /\ is_Some (smartWalletPubkey wallet) /\ isConnected wallet = true
            /\ exists i s,
                 list_find (fun s => id s = subscriptionId) (subscriptions st)
                   = Some (i, s)
                 /\ status s = active)
  /\ (forall signature,
        returned o = Some signature ->
        UseSubscription.window o
          = snd (recordPayment zone now subscriptionId signature w)
        /\ subscriptions (state o) = refresh wallet (UseSubscription.window o)
        /\ (subscriptionId ∉ id <$> loadSubscriptions w ->
              UseSubscription.window o = w)).
Proof.
  cbv zeta. unfold processPayment.
  pose proof (disconnected_false wallet) as Hd.
  destruct (disconnected wallet) eqn:Hdis.
  { cbn. split; [auto|]. split.
    - intros signature. split; [discriminate|]. intros (_ & Hs & Hc & _).
      assert (true = false) by (apply Hd; auto). discriminate.
    - intros signature [=]. }
  destruct Hd as [Hd _]. destruct (Hd eq_refl) as [Hs Hc].
  destruct (list_find _ (subscriptions st)) as [[j s]|] eqn:Hf.
  2:{ cbn. split; [auto|]. split.
      - intros signature. split; [discriminate|]. intros (_ & _ & _ & i & s & [=] & _).
      - intros signature [=]. }
  case_bool_decide as Hst; cbn [negb].
  2:{ cbn. split; [auto|]. split.
      - intros signature. split; [discriminate|].
        intros (_ & _ & _ & i & s' & [= _ <-] & Ha). contradiction.
      - intros signature [=]. }
  destruct payment as [signature|message].
  2:{ cbn. split; [auto|]. split.
      - intros signature. split; [discriminate|]. intros ([=] & _).
      - intros signature [=]. }
  cbn [returned state UseSubscription.window subscriptions isLoading].
  split; [discriminate|]. split.
  - intros signature'. split.
    + intros [= <-]. repeat split; eauto.
    + intros ([= <-] & _). reflexivity.
  - intros signature' [= <-]. split; [reflexivity|]. split; [reflexivity|].
    intros Hnot. rewrite recordPayment_not_found; [reflexivity|].
    apply (list_find_None (fun sub => id sub = subscriptionId)).
    apply Forall_forall. intros r Hin Hid. apply Hnot.
    apply list_elem_of_fmap. exists r. split; [now symmetry | assumption].
Qed.

(** X17. When the list of the hook is the one [refresh] gives for the
    storage and the ids of the ledger are distinct, a [processPayment] that
    resolves to a signature has updated a record of the ledger that has the
    id, is active and belongs to the wallet: its last payment is the
    signature, its next billing date one cycle after the call, and the
    updated record is in the list of the hook. *)
Theorem processPayment_on_fresh_list `{JSON (list Subscription)} (zone : Zone) (now : Z)
    (wallet : Wallet) (payment : Payment) (subscriptionId signature : string)
    (st : State) (ls : Storage) :
  let o := processPayment zone wallet payment now subscriptionId st (Some ls) in
  subscriptions st = refresh wallet (Some ls) ->
  NoDup (id <$> loadSubscriptions (Some ls)) ->
  returned o = Some signature ->
  exists i old,
    loadSubscriptions (Some ls) !! i = Some old
    /\ id old = subscriptionId
    /\ smartWalletPubkey wallet = Some (walletAddress old)
    /\ status old = active
    /\ loadSubscriptions (UseSubscription.window o)
       = <[i := set_payment signature
                  (calculateNextBillingDate zone now (billingCycle old)) old]>
           (loadSubscriptions (Some ls))
    /\ set_payment signature (calculateNextBillingDate zone now (billingCycle old)) old
       ∈ subscriptions (state o).
Proof.
  cbv zeta. intros Hfresh Hnd Hret.
  destruct (processPayment_signed zone wallet _ _ _ _ _ _ Hret)
    as (-> & _ & (j & s & Hf & Hact) & Heq).
  cbv zeta in Heq.
  assert (Hw : UseSubscription.window
                 (processPayment zone wallet (payment_signed signature) now
                    subscriptionId st (Some ls))
               = snd (recordPayment zone now subscriptionId signature (Some ls)))
    by (now rewrite Heq).
  assert (Hsubs : subscriptions
                    (state (processPayment zone wallet (payment_signed signature) now
                              subscriptionId st (Some ls)))
                  = refresh wallet
                      (snd (recordPayment zone now subscriptionId signature (Some ls))))
    by (now rewrite Heq).
  clear Heq.
  apply list_find_Some in Hf as (Hj & Hid & _).
  assert (Hin : s ∈ refresh wallet (Some ls)).
  { rewrite <- Hfresh. eauto using list_elem_of_lookup_2. }
  pose proof (refresh_owner wallet _ _ Hin) as Hown.
  assert (Hl : s ∈ loadSubscriptions (Some ls)).
  { unfold refresh, getWalletSubscriptions in Hin.
    destruct (smartWalletPubkey wallet); [|now apply elem_of_nil in Hin].
    now apply list_elem_of_filter in Hin as [_ Hl]. }
  apply list_elem_of_lookup_1 in Hl as [i Hi].
  assert (Hfind : list_find (fun sub => id sub = subscriptionId)
                    (loadSubscriptions (Some ls)) = Some (i, s)).
  { apply list_find_Some. split; [assumption|]. split; [assumption|].
    intros k r Hk Hlt Hidr.
    assert (k = i); [|lia].
    apply (NoDup_lookup _ k i subscriptionId Hnd);
      rewrite list_lookup_fmap; [rewrite Hk | rewrite Hi]; cbn; congruence. }
  destruct (recordPayment_found zone now _ signature _ _ _ Hfind) as [_ Hl].
  cbv zeta in Hl.
  exists i, s. split; [assumption|]. split; [assumption|]. split; [assumption|].
  split; [assumption|]. rewrite Hsubs, Hw. split; [exact Hl|].
  unfold refresh. rewrite Hown. unfold getWalletSubscriptions.
  apply list_elem_of_filter. split; [reflexivity|].
  rewrite Hl. apply list_elem_of_lookup_2 with i.
  apply list_lookup_insert_eq. eauto using lookup_lt_Some.
Qed.

Lemma processPayment_on_fresh_list_witness :
  let wallet := {| smartWalletPubkey := Some "9xQeWvG816bUx9EPjHmaT23yvVM2ZWbrrpZb9PusVFin";
                   isConnected := true |} in
  let ls := Demo.storage [Demo.record "sub_1" active; Demo.record "sub_2" active] in
  let st := {| subscriptions := refresh wallet (Some ls); isLoading := false |} in
  let o := processPayment (fixedOffset 0) wallet (payment_signed "signature2") Demo.mar_3
             "sub_2" st (Some ls) in
  exists i old,
    loadSubscriptions (Some ls) !! i = Some old
    /\ id old = "sub_2"
    /\ smartWalletPubkey wallet = Some (walletAddress old)
    /\ status old = active
    /\ loadSubscriptions (UseSubscription.window o)
       = <[i := set_payment "signature2"
                  (calculateNextBillingDate (fixedOffset 0) Demo.mar_3 (billingCycle old)) old]>
           (loadSubscriptions (Some ls))
    /\ set_payment "signature2"
         (calculateNextBillingDate (fixedOffset 0) Demo.mar_3 (billingCycle old)) old
       ∈ subscriptions (state o).
Proof.
  cbv zeta. apply processPayment_on_fresh_list.
  - reflexivity.
  - vm_compute. repeat (apply NoDup_cons; split; [|]);
      [ intros Hin; apply list_elem_of_singleton in Hin; discriminate
      | intros Hin; now apply elem_of_nil in Hin
      | apply NoDup_nil_2 ].
  - vm_compute. reflexivity.
Defined.

(** X18. When the ids of the ledger are distinct, after a [cancel] that
    returns [true] the active subscriptions that the manager shows are the
    active ones that the storage held for the wallet before the call,
    without the one of the cancelled id; none of them has that id. *)
Theorem cancelled_leaves_the_manager `{JSON (list Subscription)} (wallet : Wallet)
    (subscriptionId : string) (st : State) (ls : Storage) :
  let o := cancel wallet subscriptionId st (Some ls) in
  NoDup (id <$> loadSubscriptions (Some ls)) ->
  returned o = true ->
  activeSubscriptions (subscriptions (state o))
  = filter (fun r => id r <> subscriptionId)
      (activeSubscriptions (refresh wallet (Some ls)))
  /\ Forall (fun r => id r <> subscriptionId)
       (activeSubscriptions (subscriptions (state o))).
Proof.
  cbv zeta. intros Hnd. unfold cancel.
  destruct (list_find (fun sub => id sub = subscriptionId) (loadSubscriptions (Some ls)))
    as [[i old]|] eqn:Hf.
  2:{ rewrite (cancelSubscription_not_found subscriptionId (Some ls) Hf).
      cbn. discriminate. }
  destruct (cancelSubscription_found _ _ _ _ Hf) as [Hr Hl].
  rewrite Hr. cbn [returned state subscriptions]. intros _.
  apply list_find_Some in Hf as (Hi & Hid & _).
  assert (Heq : activeSubscriptions
                  (refresh wallet (snd (cancelSubscription subscriptionId (Some ls))))
                = filter (fun r => id r <> subscriptionId)
                    (activeSubscriptions (refresh wallet (Some ls)))).
  { unfold activeSubscriptions, refresh, getWalletSubscriptions.
    destruct (smartWalletPubkey wallet) as [key|]; [|reflexivity].
    rewrite Hl, !list_filter_filter.
    rewrite (filter_insert_id _ _ i old); [|assumption|assumption|intros [[=] _]].
    rewrite Hid, list_filter_filter. apply list_filter_iff. tauto. }
  split; [exact Heq|]. rewrite Heq.
  apply Forall_forall. intros r Hin. now apply list_elem_of_filter in Hin as [Hne _].
Qed.

Lemma cancelled_leaves_the_manager_witness :
  let wallet := {| smartWalletPubkey := Some "9xQeWvG816bUx9EPjHmaT23yvVM2ZWbrrpZb9PusVFin";
                   isConnected := true |} in
  let ls := Demo.storage [Demo.record "sub_1" active; Demo.record "sub_2" active] in
  let o := cancel wallet "sub_1" {| subscriptions := []; isLoading := false |} (Some ls) in
  activeSubscriptions (subscriptions (state o)) = [Demo.record "sub_2" active].
Proof.
  cbv zeta.
  refine (eq_trans (proj1 (cancelled_leaves_the_manager _ "sub_1" _ _ _ _)) _).
  - vm_compute. repeat (apply NoDup_cons; split; [|]);
      [ intros Hin; apply list_elem_of_singleton in Hin; discriminate
      | intros Hin; now apply elem_of_nil in Hin
      | apply NoDup_nil_2 ].
  - vm_compute. reflexivity.
  - vm_compute. reflexivity.
Defined.

(** X19. After a [subscribe] that succeeds, the plan that the page shows as
    current is the new plan when the storage held no active subscription of
    the wallet, and otherwise the plan of the first active one that it held:
    the new subscription does not change it.  After a [subscribe] that fails
    the page shows the plan it showed before. *)
Theorem subscribe_current_plan `{JSON (list Subscription)} (zone : Zone) (now : Z)
    (wallet : Wallet) (payment : Payment) (rnd planId' merchantAddress' : string)
    (st : State) (ls : Storage) :
  let o := subscribe zone wallet payment now rnd planId' merchantAddress' st (Some ls) in
  let before := refresh wallet (Some ls) in
  (is_Some (returned o) ->
     getActivePlanId (subscriptions (state o))
     = if bool_decide (activeSubscriptions before = [])
       then Some planId'
       else getActivePlanId before)
  /\ (returned o = None ->
        getActivePlanId (subscriptions (state o)) = getActivePlanId (subscriptions st)).
Proof.
  cbv zeta. unfold subscribe.
  pose proof (find_plan planId') as Hp.
  split.
  2:{ destruct (smartWalletPubkey wallet) as [key|]; [|reflexivity].
      destruct (disconnected wallet); [reflexivity|].
      destruct (list_find _ DEMO_PLANS) as [[j plan]|]; [|reflexivity].
      destruct payment; [discriminate|reflexivity]. }
  unfold refresh.
  destruct (smartWalletPubkey wallet) as [key|]; [|intros [? [=]]].
  destruct (disconnected wallet); [intros [? [=]]|].
  destruct (list_find _ DEMO_PLANS) as [[j plan]|]; [|intros [? [=]]].
  destruct Hp as [Hin Hid].
  destruct payment as [signature|message]; [|intros [? [=]]].
  intros _. cbn [state subscriptions].
  unfold getWalletSubscriptions at 1.
  rewrite createSubscription_ledger, filter_app, filter_cons_True by reflexivity.
  change (filter _ (loadSubscriptions (Some ls)))
    with (getWalletSubscriptions (Some ls) key).
  rewrite filter_nil.
  set (view := getWalletSubscriptions (Some ls) key).
  unfold getActivePlanId, activeSubscriptions.
  destruct (list_find (fun s => status s = active) view) as [[i s]|] eqn:Hf.
  - rewrite (list_find_app_l _ _ _ _ _ Hf).
    rewrite bool_decide_eq_false_2; [reflexivity|].
    apply list_find_Some in Hf as (Hi & Hs & _).
    intros Hnil.
    assert (Hin' : s ∈ filter (fun sub => status sub = active) view).
    { apply list_elem_of_filter. eauto using list_elem_of_lookup_2. }
    rewrite Hnil in Hin'. now apply elem_of_nil in Hin'.
  - pose proof Hf as Hall.
    apply (list_find_None (fun s => status s = active) view) in Hall.
    rewrite list_find_app_r by assumption.
    set (created := fst (createSubscription zone now rnd planId' key merchantAddress'
                           (plan_amount plan) (plan_billingCycle plan)
                           (Some signature) (Some ls))).
    assert (Hplan : planId created = plan_id plan) by (now rewrite Hid).
    assert (Hact : status created = active) by reflexivity.
    clearbody created view.
    rewrite (list_find_singleton _ created Hact). cbn [fmap option_fmap option_map prod_map snd Datatypes.id].
    rewrite Hplan, (plan_id_nonempty plan Hin), Hid.
    rewrite bool_decide_eq_true_2; [reflexivity|].
    clear -Hall. induction Hall as [|x l Hx _ IH]; [reflexivity|].
    now rewrite filter_cons_False.
Qed.

Import SessionPage.

(** X20. For a timestamp that is not in the future, [getSessionAge] shows
    hours that are not negative and minutes between 0 and 59, which together
    are the whole minutes of the age.  For a timestamp in the future the
    hours are negative and the minutes lie between -60 and 0. *)
Theorem sessionAge_spec (now ts : Z) :
  let hours := fst (sessionAge now ts) in
  let minutes := snd (sessionAge now ts) in
  (ts <= now ->
     0 <= hours /\ 0 <= minutes <= 59
     /\ hours * 60 + minutes = (now - ts) / 60000
     /\ (hours * 60 + minutes) * 60000 <= now - ts < (hours * 60 + minutes + 1) * 60000)
  /\ (now < ts -> hours <= -1 /\ -60 <= minutes <= 0).
Proof.
  cbv zeta. unfold sessionAge. cbn [fst snd].
  change (1000 * 60 * 60) with 3600000. change (1000 * 60) with 60000.
  set (age := now - ts). split; intros Hle.
  - assert (Ha : 0 <= age) by (unfold age; lia).
    rewrite Z.rem_mod_nonneg by lia.
    clearbody age. Z.div_mod_to_equations. lia.
  - assert (Ha : age < 0) by (unfold age; lia).
    clearbody age.
    pose proof (Z.rem_opp_l age 3600000 ltac:(lia)) as Hr.
    assert (Hr' : Z.rem age 3600000 = - ((- age) mod 3600000)).
    { rewrite <- (Z.rem_mod_nonneg (- age) 3600000) by lia. lia. }
    rewrite Hr'. Z.div_mod_to_equations. lia.
Qed.

(* ================================================================== *)
(** * Further properties: the session                                *)
(* ================================================================== *)

Import UseSession UseSessionEffects SessionFacts FrameFacts.

(** X21. After [clearSession] no session loads and [sessionInfo] is
    [null], also right after a save; no other key of the storage is
    touched. *)
Theorem clearSession_then_load `{JSON SessionData} (now : Z) (key : option string)
    (ls : Storage) (info : option SessionData) :
  let h := {| window := Some ls; sessionInfo := info |} in
  loadSession (clearSession h) = None
  /\ sessionInfo (clearSession h) = None
  /\ loadSession (clearSession (saveSession now key h)) = None
  /\ (forall k, k <> SESSION_KEY ->
        (window (clearSession h) ≫= fun ls' => getItem ls' k) = getItem ls k).
Proof.
  cbv zeta. split; [apply loadSession_clearSession|].
  split; [reflexivity|]. split; [apply loadSession_clearSession|].
  intros k Hk. cbn. unfold getItem, removeItem. now rewrite lookup_delete_ne.
Qed.

(** X22. A second [saveSession] replaces the first: the hook is as if only
    the second had run, the session that loads has the time and the key of
    the second, and [sessionInfo] is that session. *)
Theorem saveSession_overwrites `{JSON SessionData} (now1 now2 : Z)
    (key1 key2 : option string) (ls : Storage) (info : option SessionData) :
  let h := {| window := Some ls; sessionInfo := info |} in
  let h2 := saveSession now2 key2 (saveSession now1 key1 h) in
  h2 = saveSession now2 key2 h
  /\ loadSession h2
     = Some {| connected := true; timestamp := now2; walletAddress := key2 |}
  /\ sessionInfo h2 = loadSession h2.
Proof.
  cbv zeta.
  assert (Heq : saveSession now2 key2
                  (saveSession now1 key1 {| window := Some ls; sessionInfo := info |})
                = saveSession now2 key2 {| window := Some ls; sessionInfo := info |}).
  { unfold saveSession, setItem. cbn [window]. f_equal. f_equal.
    apply insert_insert_eq. }
  rewrite Heq, loadSession_saveSession. repeat split.
Qed.

(** X23. The session that loads after [saveSession] at [now] is valid at a
    later reading [now'] of the clock exactly when [now' < now + expiryMs]. *)
Theorem saved_session_valid_until_expiry `{JSON SessionData} (expiryMs now now' : Z)
    (key : option string) (ls : Storage) (info : option SessionData) :
  isValidSession expiryMs now'
    (loadSession (saveSession now key {| window := Some ls; sessionInfo := info |}))
  = true <-> now' < now + expiryMs.
Proof.
  rewrite loadSession_saveSession. unfold isValidSession. cbn.
  rewrite Z.ltb_lt. lia.
Qed.

(** X24. [restoreSession] always ends with [isRestoring] false; it calls
    [connect] exactly when the stored session is valid.  A session that still
    loads afterwards is valid, [connect] resolved, and the hook has it as
    [sessionInfo] with the storage unchanged: a session that has expired, and
    one whose [connect] was rejected, is removed.  When no session loads the
    storage is unchanged and [sessionInfo] is [null]. *)
Theorem restoreSession_post `{JSON SessionData} (expiryMs now : Z)
    (connect : Connect) (h : Hook) :
  let r := restoreSession expiryMs now connect h in
  isRestoring r = false
  /\ connect_called r = isValidSession expiryMs now (loadSession h)
  /\ (forall s, loadSession (hook r) = Some s ->
        isValidSession expiryMs now (Some s) = true
        /\ connect = connect_resolves
        /\ hook r = setSessionInfo (Some s) h)
  /\ (loadSession h = None -> hook r = setSessionInfo None h).
Proof.
  cbv zeta. unfold restoreSession.
  destruct (loadSession h) as [s0|] eqn:Hl.
  - destruct (isValidSession expiryMs now (Some s0)) eqn:Hv.
    + destruct connect; cbn [isRestoring connect_called hook];
        (split; [reflexivity|]); (split; [reflexivity|]); (split; [|discriminate]);
        intros s Hs.
      * unfold setSessionInfo in Hs. rewrite loadSession_sessionInfo, Hl in Hs.
        injection Hs as <-. auto.
      * rewrite loadSession_clearSession in Hs. discriminate.
    + rewrite bool_decide_eq_true_2 by eauto.
      cbn [isRestoring connect_called hook].
      split; [reflexivity|]. split; [reflexivity|]. split; [|discriminate].
      intros s Hs. rewrite loadSession_clearSession in Hs. discriminate.
  - cbn [isValidSession].
    rewrite bool_decide_eq_false_2 by (intros [? [=]]).
    cbn [isRestoring connect_called hook].
    split; [reflexivity|]. split; [reflexivity|]. split; [|reflexivity].
    intros s Hs. unfold setSessionInfo in Hs.
    rewrite loadSession_sessionInfo, Hl in Hs. discriminate.
Qed.

(** X25. The session and the ledger do not touch each other: no history of
    ledger operations and no [clearAllSubscriptions] changes the session that
    loads, and neither [saveSession] nor [clearSession] changes the ledger
    that loads. *)
Theorem session_and_ledger_are_separate
    `{JSON SessionData} `{JSON (list Subscription)}
    (zone : Zone) (now : Z) (ops : list Op) (key : option string) (h : Hook) :
  loadSession {| window := run zone ops (window h); sessionInfo := sessionInfo h |}
  = loadSession h
  /\ loadSubscriptions (window (saveSession now key h)) = loadSubscriptions (window h)
  /\ loadSubscriptions (window (clearSession h)) = loadSubscriptions (window h)
  /\ loadSession {| window := clearAllSubscriptions (window h);
                    sessionInfo := sessionInfo h |}
     = loadSession h.
Proof.
  repeat split.
  - apply loadSession_key. cbn [window].
    apply run_other_key, SESSION_KEY_SUBSCRIPTIONS_KEY.
  - apply loadSubscriptions_key. unfold saveSession.
    destruct (window h) as [ls|] eqn:Hw; [|now rewrite Hw].
    cbn. unfold getItem, setItem. rewrite lookup_insert_ne; [reflexivity|discriminate].
  - apply loadSubscriptions_key. unfold clearSession.
    destruct (window h) as [ls|] eqn:Hw; [|now rewrite Hw].
    cbn. unfold getItem, removeItem. rewrite lookup_delete_ne; [reflexivity|discriminate].
  - apply loadSession_key. cbn [window]. unfold clearAllSubscriptions.
    destruct (window h) as [ls|]; [|reflexivity].
    cbn. unfold getItem, removeItem. rewrite lookup_delete_ne; [reflexivity|discriminate].
Qed.

(** X26. Whatever was stored and however the restore went, once the wallet
    is connected with a key the effect that saves the session stores one with
    the time of that save and that key, which is [sessionInfo]; it is valid
    exactly until [expiryMs] after that save.  While the wallet is not
    connected or has no key the effect changes nothing. *)
Theorem reconnect_renews_session `{JSON SessionData}
    (expiryMs now now2 later : Z) (connect : Connect) (key : string)
    (isConnected : bool) (smartWalletPubkey : option string)
    (ls : Storage) (info : option SessionData) :
  let restored := hook (restoreSession expiryMs now connect
                          {| window := Some ls; sessionInfo := info |}) in
  let renewed := save_when_connected now2 true (Some key) restored in
  loadSession renewed
  = Some {| connected := true; timestamp := now2; walletAddress := Some key |}
  /\ sessionInfo renewed = loadSession renewed
  /\ (isSessionValid expiryMs later renewed = true <-> later < now2 + expiryMs)
  /\ (isConnected = false \/ smartWalletPubkey = None ->
        save_when_connected now2 isConnected smartWalletPubkey restored = restored).
Proof.
  cbv zeta.
  set (restored := hook (restoreSession expiryMs now connect
                           {| window := Some ls; sessionInfo := info |})).
  assert (Hw : exists ls' info', restored = {| window := Some ls'; sessionInfo := info' |}).
  { subst restored. unfold restoreSession, setSessionInfo, clearSession. cbn [window].
    destruct (isValidSession _ _ _); [destruct connect|destruct (bool_decide _)];
      cbn [hook]; eauto. }
  destruct Hw as (ls' & info' & ->).
  unfold save_when_connected.
  rewrite bool_decide_eq_true_2 by eauto. cbn [andb].
  rewrite loadSession_saveSession.
  split; [reflexivity|]. split; [reflexivity|]. split.
  - unfold isSessionValid, isValidSession, saveSession. cbn.
    rewrite Z.ltb_lt. lia.
  - intros [-> | ->]; [reflexivity|].
    rewrite andb_comm. reflexivity.
Qed.
